(** * scrapexam.py: record merging, retry escalation and the stopping rule

    A shallow embedding of [src/scrapexam.py].  The browser is an external
    collaborator: every answer the Selenium driver gives is an input of the
    model (a script of answers), every side effect the code performs on it
    is recorded in a log of actions.

    Where the code guards a driver call with [try ... except], the script
    says whether the call worked.  Every call of
    [go_back_to_usn_entry_keep_session] is run on driver answers of its
    own and may raise, as may the wait of line 366 and the fill of line
    373; such an exception goes where the code lets it go: it is swallowed
    where the call is inside a [try], and escapes otherwise, out of the
    extractor, out of [submit_and_collect_usn] (the outcome [Raised] that
    the loops of [main] catch), or out of the loops of [main] themselves.
    The polls of the page ([find_elements], [page_source]) are taken to
    answer.  Sleeps and prints are left out. *)

From stdpp Require Import gmap strings list fin_maps pretty.

Local Open Scope string_scope.
Local Open Scope list_scope.
Local Open Scope nat_scope.

(** ** Configuration (lines 28-43) *)

Definition ROLL_START : nat := 1.
Definition DIP_START : nat := 401.
Definition MAX_CONSEC_OOPS : nat := 5.
Definition RETRY_ON_TIMEOUT : nat := 2.

Definition YEARS : list string := ["21"; "22"; "23"; "24"].
Definition BRANCHES : list string := ["AD"; "AI"; "CS"; "IS"; "CI"; "CY"].

(** ** Record model *)

(** A course dict, as built by [extract_courses_from_visible_table]. *)
Record Course := mkCourse {
  Course_Code : string;
  Course_Name : string;
  Grade : string;
  Timestamp : string
}.

(** The tuple [(c.get("Course_Code"), c.get("Grade"), c.get("Course_Name"))]
    of [merge_semesters]. *)
Definition course_key (c : Course) : string * string * string :=
  (Course_Code c, Grade c, Course_Name c).

(** ** The way back to the entry page (lines 73-99) *)

(** What one [driver.back()] followed by the wait for the entry field does
    (lines 77-78): the field shows up, the wait times out, or something
    else than a [TimeoutException] is raised. *)
Inductive BackAnswer := BackOk | BackTimeout | BackError.

(** The driver's answers during [go_back_to_usn_entry_keep_session]. *)
Record GoBackScript := mkGoBack {
  gb_back : nat → BackAnswer;  (* lines 75-81, by iteration *)
  gb_link : bool;              (* lines 83-90: the link was found, clicked,
                                  and the field showed up *)
  gb_reload : bool             (* lines 94-97: the reload showed the field *)
}.

(** The three ways back the function tries: the history, the link of the
    page, the reload of the site. *)
Inductive Nav := NavBack | NavLink | NavReload.

#[export] Instance Nav_eq_dec : EqDecision Nav.
Proof. solve_decision. Defined.

(** The [for _ in range(2)] loop (lines 75-81): [Some (Some true)] is the
    return of line 79, [Some None] an exception that escapes, [None] the end
    of the loop. *)
Fixpoint back_loop (s : GoBackScript) (iterations : list nat)
    : option (option bool) * list Nav :=
  match iterations with
  | [] => (None, [])
  | i :: rest =>
      match gb_back s i with
      | BackOk => (Some (Some true), [NavBack])
      | BackError => (Some None, [NavBack])
      | BackTimeout =>
          let r := back_loop s rest in (r.1, NavBack :: r.2)
      end
  end.

(** [go_back_to_usn_entry_keep_session] (lines 73-99): [Some b] is the
    returned value, [None] an exception that escapes. *)
Definition go_back_to_usn_entry_keep_session (s : GoBackScript)
    : option bool * list Nav :=
  let backs := back_loop s (seq 0 2) in
  match backs.1 with
  | Some result => (result, backs.2)
  | None =>
      if gb_link s then (Some true, backs.2 ++ [NavLink])
      else if gb_reload s then (Some true, backs.2 ++ [NavLink; NavReload])
      else (Some false, backs.2 ++ [NavLink; NavReload])
  end.

(** Whether the call lets an exception escape. *)
Definition raises (s : GoBackScript) : bool :=
  match (go_back_to_usn_entry_keep_session s).1 with
  | None => true
  | Some _ => false
  end.

Section Scraper.

(** Grade-point values are Python floats produced by [float(m.group(1))].
    The code never computes on them: it stores them and tests them against
    [None].  They are kept abstract. *)
Context {gpa : Type}.

(** A semester dict [{"Semester": int|None, "SGPA": float|None, "Courses": [...]}]. *)
Record SemesterObj := mkSemester {
  Semester : option Z;
  SGPA : option gpa;
  Courses : list Course
}.

(** A student dict [{"USN", "Name", "CGPA", "Semesters"}]. *)
Record StudentObj := mkStudent {
  USN : string;
  Name : string;
  CGPA : option gpa;
  Semesters : list SemesterObj
}.

Definition set_SGPA (v : option gpa) (s : SemesterObj) : SemesterObj :=
  {| Semester := Semester s; SGPA := v; Courses := Courses s |}.

Definition set_Courses (cs : list Course) (s : SemesterObj) : SemesterObj :=
  {| Semester := Semester s; SGPA := SGPA s; Courses := cs |}.

Definition set_Name (n : string) (st : StudentObj) : StudentObj :=
  {| USN := USN st; Name := n; CGPA := CGPA st; Semesters := Semesters st |}.

Definition set_CGPA (c : option gpa) (st : StudentObj) : StudentObj :=
  {| USN := USN st; Name := Name st; CGPA := c; Semesters := Semesters st |}.

Definition set_Semesters (l : list SemesterObj) (st : StudentObj) : StudentObj :=
  {| USN := USN st; Name := Name st; CGPA := CGPA st; Semesters := l |}.

(** ** [ensure_student] (lines 440-457) *)

(** Python truthiness of a [str|None] argument. *)
Definition truthy (name : option string) : bool :=
  match name with
  | Some s => negb (bool_decide (s = ""))
  | None => false
  end.

(** [name or ""]. *)
Definition name_or_empty (name : option string) : string :=
  match name with
  | Some s => s
  | None => ""
  end.

(** The map is updated in place by the source; here the updated map is
    returned and the caller reads [record_map[usn]] from it. *)
Definition ensure_student (record_map : gmap string StudentObj) (usn : string)
    (name : option string) (cgpa : option gpa) : gmap string StudentObj :=
  match record_map !! usn with
  | None =>
      <[usn := {| USN := usn; Name := name_or_empty name;
                  CGPA := cgpa; Semesters := [] |}]> record_map
  | Some st =>
      let st1 :=
        if truthy name &&
           (bool_decide (Name st = "") || bool_decide (Name st = "Name Not Found"))
        then set_Name (name_or_empty name) st else st in
      let st2 :=
        match cgpa with
        | Some v => set_CGPA (Some v) st1
        | None => st1
        end in
      <[usn := st2]> record_map
  end.

(** ** [merge_semesters] (lines 460-477) *)

(** [{s.get("Semester"): i for i, s in enumerate(student_obj["Semesters"])}]:
    keys are inserted left to right, a later index overwrites an earlier one;
    [None] is a key like any other. *)
Definition idx_by_sem (sems : list SemesterObj) : gmap (option Z) nat :=
  foldl (λ m p, <[Semester p.2 := p.1]> m) ∅ (imap pair sems).

(** The set comprehension over the destination's courses. *)
Definition existing_keys (cs : list Course) : gset (string * string * string) :=
  list_to_set (course_key <$> cs).

(** The inner loop (lines 472-475): [existing] is computed once, before the
    loop, and is not extended by the appends. *)
Definition append_new_courses (existing : gset (string * string * string))
    (dest_courses incoming : list Course) : list Course :=
  foldl (λ cs c, if bool_decide (course_key c ∈ existing) then cs else cs ++ [c])
        dest_courses incoming.

(** Lines 468-475 on the destination semester. *)
Definition merge_into (dest sem : SemesterObj) : SemesterObj :=
  let dest1 :=
    match SGPA dest, SGPA sem with
    | None, Some v => set_SGPA (Some v) dest
    | _, _ => dest
    end in
  let existing := existing_keys (Courses dest1) in
  set_Courses (append_new_courses existing (Courses dest1) (Courses sem)) dest1.

(** One iteration of the outer loop.  The index map is the one computed
    before the loop. An index out of range would be an IndexError in Python;
    [idx_in_range] below shows the branch is dead. *)
Definition merge_one (idx : gmap (option Z) nat) (sems : list SemesterObj)
    (sem : SemesterObj) : list SemesterObj :=
  match idx !! Semester sem with
  | Some i =>
      match sems !! i with
      | Some dest => <[i := merge_into dest sem]> sems
      | None => sems
      end
  | None => sems ++ [sem]
  end.

Definition merge_semesters (student_obj : StudentObj)
    (new_semesters : list SemesterObj) : StudentObj :=
  let idx := idx_by_sem (Semesters student_obj) in
  set_Semesters (foldl (merge_one idx) (Semesters student_obj) new_semesters)
                student_obj.

(** *** Object identity

    Line 477 appends the fragment dict itself, so after a call the record
    and the caller's list share objects, and a later call that receives the
    same list mutates the fragments through the record.  In this second
    model a semester dict is an address into a heap; the record and the
    fragment list hold addresses.  [merge_semesters_ref_fresh] below shows
    that [merge_semesters] is exact when the fragments are objects of their
    own, which is the case for every call made by [main], where the list was
    just built by the extractor. *)

Definition deref (heap : list SemesterObj) (refs : list nat) : list SemesterObj :=
  omap (λ a, heap !! a) refs.

Definition merge_one_ref (idx : gmap (option Z) nat)
    (state : list SemesterObj * list nat) (a : nat)
    : list SemesterObj * list nat :=
  let heap := state.1 in
  let sems := state.2 in
  match heap !! a with
  | None => state
  | Some sem =>
      match idx !! Semester sem with
      | Some i =>
          match sems !! i with
          | Some d =>
              match heap !! d with
              | Some dest => (<[d := merge_into dest sem]> heap, sems)
              | None => state
              end
          | None => state
          end
      | None => (heap, sems ++ [a])
      end
  end.

Definition merge_semesters_ref (heap : list SemesterObj) (sems frags : list nat)
    : list SemesterObj * list nat :=
  foldl (merge_one_ref (idx_by_sem (deref heap sems))) (heap, sems) frags.

(** Lines 564-565 of [main]: [stu = ensure_student(...); merge_semesters(stu, semesters)]. *)
Definition ensure_and_merge (students_map : gmap string StudentObj) (usn : string)
    (name : option string) (cgpa : option gpa)
    (semesters : list SemesterObj) : gmap string StudentObj :=
  let m := ensure_student students_map usn name cgpa in
  match m !! usn with
  | Some stu => <[usn := merge_semesters stu semesters]> m
  | None => m
  end.

(** ** The driver as a script of answers, the effects as a log *)

(** What [wait_for_either] returns (lines 125-146). *)
Inductive Indicator := IndOops | IndCards | IndTable | IndTimeout.

#[export] Instance Indicator_eq_dec : EqDecision Indicator.
Proof. solve_decision. Defined.

(** The four places where the code blocks on [input(...)]. *)
Inductive Prompt :=
| PromptClickGo           (* line 379: GO could not be clicked *)
| PromptCaptcha           (* line 386: captcha visible after the submit *)
| PromptCaptchaRetry      (* line 414: captcha visible after a re-submit *)
| PromptRetriesExhausted. (* line 422: automatic retries exhausted *)

#[export] Instance Prompt_eq_dec : EqDecision Prompt.
Proof. solve_decision. Defined.

(** Side effects on the browser and the console, by call site. *)
Inductive Action :=
| ActProcess (usn : string)   (* lines 544, 583: submit_and_collect_usn(driver, usn) *)
| ActRecoverEntry             (* go_back_to_usn_entry_keep_session(driver) is called *)
| ActNav (step : Nav)         (* a step of that call, lines 77, 84-88, 95 *)
| ActSubmit (usn : string)    (* lines 373-377: the field is filled, GO is asked for *)
| ActRefill (usn : string)    (* line 405: set_input_value_js is called again *)
| ActResubmit (usn : string)  (* line 406: click_go_button returned True *)
| ActInput (p : Prompt)       (* input(...) *)
| ActWait (secs : nat)        (* wait_for_either(driver, timeout=secs) *)
| ActClickView (idx : nat)    (* line 294: click the card's view control *)
| ActBack.                    (* line 321: driver.back() to the cards view *)

#[export] Instance Action_eq_dec : EqDecision Action.
Proof. solve_decision. Defined.

(** A computation that returns a value and the actions it performed. *)
Definition Logged (A : Type) : Type := A * list Action.

#[export] Instance logged_ret : MRet Logged := λ A a, (a, []).

#[export] Instance logged_bind : MBind Logged := λ A B k c,
  let r := k c.1 in (r.1, c.2 ++ r.2).

Definition tell (a : Action) : Logged unit := (tt, [a]).

(** A call of [go_back_to_usn_entry_keep_session(driver)]: its steps go to
    the log, its value is [None] when it raises. *)
Definition recover (g : GoBackScript) : Logged (option bool) :=
  let r := go_back_to_usn_entry_keep_session g in
  (r.1, ActRecoverEntry :: (ActNav <$> r.2)).

(** The same call outside any [try]: an exception it raises ends the
    caller with [raised], a returned value is dropped and [k] goes on. *)
Definition recover_or {A} (g : GoBackScript) (raised : A) (k : Logged A)
    : Logged A :=
  ok ← recover g;
  match ok with
  | None => mret raised
  | Some _ => k
  end.

(** One [tr] of the result table: the stripped text of its [td] cells and
    the clock reading [datetime.now().strftime("%H:%M:%S")] taken for it. *)
Record Row := mkRow {
  cells : list string;
  row_time : string
}.

(** The body of the row loop (lines 238-249): a row with at least five
    cells, a code and a name appends one course. *)
Definition add_row (courses : list Course) (r : Row) : list Course :=
  let tds := cells r in
  if bool_decide (5 ≤ length tds) then
    let code := default "" (tds !! 0) in
    let name := default "" (tds !! 1) in
    let grade := default "" (tds !! 4) in
    if negb (bool_decide (code = "")) && negb (bool_decide (name = "")) then
      courses ++ [{| Course_Code := code; Course_Name := name;
                     Grade := grade; Timestamp := row_time r |}]
    else courses
  else courses.

(** [extract_courses_from_visible_table] (lines 230-252).  [rows] are the
    rows the driver delivers before the table ends or an exception ends the
    loop; a table that never appears delivers none. *)
Definition extract_courses_from_visible_table (rows : list Row) : list Course :=
  foldl add_row [] rows.

(** What the extraction helpers read from the page that is on display:
    [extract_semester_number_from_header], [extract_sgpa_from_caption],
    [extract_cgpa_if_any], and the table rows. *)
Record PageData := mkPage {
  pd_sem_num : option Z;
  pd_sgpa : option gpa;
  pd_cgpa : option gpa;
  pd_rows : list Row
}.

(** The driver's answers while one card is visited (lines 274-327). *)
Record CardVisit := mkVisit {
  cv_cards_now : nat;        (* len(get_semester_cards(driver)), line 274 *)
  cv_view_btn : bool;        (* a view control was found, lines 280-291 *)
  cv_click_ok : bool;        (* the click did not raise, lines 293-296 *)
  cv_indicator : Indicator;  (* wait_for_either(driver, timeout=10) *)
  cv_page : PageData;
  cv_back_ok : bool;         (* back to the cards view worked, lines 320-323 *)
  cv_recover : GoBackScript  (* the call of line 302 or of line 326 *)
}.

(** The driver's answers during [scrape_current_usn_view_structured]. *)
Record ScrapeScript := mkScrape {
  ss_oops : bool;                (* page_has_oops(driver), line 263 *)
  ss_name : string;              (* extract_student_name(driver) *)
  ss_visits : list CardVisit;    (* one entry per card of line 271 *)
  ss_direct_present : bool;      (* indicator_present, lines 334-335 *)
  ss_direct_page : PageData;
  ss_recover : GoBackScript      (* the call of line 330 or of line 349 *)
}.

(** The tuple [(found_any, name, cgpa, semesters)]. *)
Definition Result : Type :=
  bool * option string * option gpa * list SemesterObj.

(** A call either returns its tuple or lets an exception escape. *)
Inductive Outcome :=
| Raised
| Returned (r : Result).

Definition not_found : Result := (false, None, None, []).

Definition res_found (r : Result) : bool := r.1.1.1.
Definition res_name (r : Result) : option string := r.1.1.2.
Definition res_cgpa (r : Result) : option gpa := r.1.2.
Definition res_semesters (r : Result) : list SemesterObj := r.2.

(** Lines 305-317 and 337-348: read the page; the fragment is appended only
    when [courses] is non-empty. *)
Definition collect_page (page : PageData) (semesters : list SemesterObj)
    (cgpa_final : option gpa) : list SemesterObj * option gpa :=
  let cgpa_final' :=
    match pd_cgpa page with
    | Some c => Some c
    | None => cgpa_final
    end in
  let courses := extract_courses_from_visible_table (pd_rows page) in
  let semesters' :=
    match courses with
    | [] => semesters
    | _ :: _ =>
        semesters ++ [{| Semester := pd_sem_num page; SGPA := pd_sgpa page;
                         Courses := courses |}]
    end in
  (semesters', cgpa_final').

(** The [for idx in range(len(cards))] loop (lines 273-327); [continue]
    is the recursive call, [break] is the return of [Some], [None] is an
    exception that escapes: the recovery calls of lines 302 and 326 are
    outside any [try]. *)
Fixpoint cards_loop (idx : nat) (visits : list CardVisit)
    (semesters : list SemesterObj) (cgpa_final : option gpa)
    : Logged (option (list SemesterObj * option gpa)) :=
  match visits with
  | [] => mret (Some (semesters, cgpa_final))
  | v :: rest =>
      if bool_decide (cv_cards_now v ≤ idx)%nat
      then mret (Some (semesters, cgpa_final))
      else if negb (cv_view_btn v) then
        cards_loop (S idx) rest semesters cgpa_final
      else
        tell (ActClickView idx) ;;
        if negb (cv_click_ok v) then
          cards_loop (S idx) rest semesters cgpa_final
        else
          tell (ActWait 10) ;;
          match cv_indicator v with
          | IndOops =>
              recover_or (cv_recover v) None
                (cards_loop (S idx) rest semesters cgpa_final)
          | _ =>
              let acc := collect_page (cv_page v) semesters cgpa_final in
              tell ActBack ;;
              if cv_back_ok v then cards_loop (S idx) rest acc.1 acc.2
              else recover_or (cv_recover v) None (mret (Some acc))
          end
  end.

(** Lines 330-331 and 349-350: back to the entry page, then the tuple. *)
Definition leave_with (s : ScrapeScript)
    (acc : list SemesterObj * option gpa) : Logged Outcome :=
  recover_or (ss_recover s) Raised
    (mret (Returned (bool_decide (0 < length acc.1)%nat, Some (ss_name s),
                     acc.2, acc.1))).

(** [scrape_current_usn_view_structured] (lines 257-352). *)
Definition scrape_current_usn_view_structured (s : ScrapeScript)
    : Logged Outcome :=
  if ss_oops s then mret (Returned not_found)
  else
    match ss_visits s with
    | _ :: _ =>
        acc ← cards_loop 0 (ss_visits s) [] None;
        match acc with
        | None => mret Raised
        | Some acc => leave_with s acc
        end
    | [] =>
        if ss_direct_present s then
          leave_with s (collect_page (ss_direct_page s) [] None)
        else mret (Returned (false, Some (ss_name s), None, []))
    end.

(** ** [submit_and_collect_usn] (lines 356-436) *)

(** The driver's answers while one identifier is submitted. *)
Record SubmitScript := mkSubmit {
  sb_usn_ready : bool;             (* line 363: the entry field is there *)
  sb_recover : GoBackScript;       (* line 365, outside any try *)
  sb_usn_ready_after_back : bool;  (* line 366: it is there after recovery *)
  sb_field_found : bool;           (* line 370: find_element(By.ID, "usn") *)
  sb_fill_ok : bool;               (* line 373: set_input_value_js returns *)
  sb_click_ok : bool;              (* line 377: click_go_button(driver) *)
  sb_captcha : bool;               (* line 384: captcha element visible *)
  sb_wait : nat → Indicator;       (* line 392, by attempt number *)
  sb_refill_ok : nat → bool;       (* line 405: set_input_value_js returns *)
  sb_reclick_ok : nat → bool;      (* line 406: click_go_button(driver) *)
  sb_retry_captcha : nat → bool;   (* line 412, by attempt number *)
  sb_long_wait : Indicator;        (* line 425 *)
  sb_view : ScrapeScript           (* the page handed to the extractor *)
}.

(** Lines 404-409: the refill and the click are inside one [try]; when the
    refill raises the click is not made, and the result of the click is
    not looked at. *)
Definition resubmitted (s : SubmitScript) (attempt : nat) : bool :=
  sb_refill_ok s attempt && sb_reclick_ok s attempt.

(** The retry loop [for attempt in range(retries + 1)] (lines 391-433),
    by recursion on the attempts left to run. *)
Fixpoint retry_loop (retries : nat) (s : SubmitScript) (usn : string)
    (attempts : list nat) : Logged Outcome :=
  match attempts with
  | [] => mret (Returned not_found)
  | attempt :: rest =>
      tell (ActWait 12) ;;
      match sb_wait s attempt with
      | IndOops => mret (Returned not_found)
      | IndCards | IndTable => scrape_current_usn_view_structured (sb_view s)
      | IndTimeout =>
          if bool_decide (attempt < retries)%nat then
            tell (ActRefill usn) ;;
            (if resubmitted s attempt
             then tell (ActResubmit usn) else mret tt) ;;
            (if sb_retry_captcha s attempt
             then tell (ActInput PromptCaptchaRetry) else mret tt) ;;
            retry_loop retries s usn rest
          else
            tell (ActInput PromptRetriesExhausted) ;;
            tell (ActWait 30) ;;
            match sb_long_wait s with
            | IndCards | IndTable =>
                scrape_current_usn_view_structured (sb_view s)
            | IndOops => mret (Returned not_found)
            | IndTimeout => mret (Returned not_found)
            end
      end
  end.

(** Lines 361-366: [true] when the entry field is there, at once or after
    the recovery of line 365; [false] when that recovery raises or the wait
    of line 366 times out, both outside any [try]: the exception escapes
    the call. *)
Definition ensure_on_usn_page (s : SubmitScript) : Logged bool :=
  if sb_usn_ready s then mret true
  else recover_or (sb_recover s) false (mret (sb_usn_ready_after_back s)).

Definition submit_with (retries : nat) (s : SubmitScript) (usn : string)
    : Logged Outcome :=
  ready ← ensure_on_usn_page s;
  if negb ready then mret Raised
  else if negb (sb_field_found s) then mret (Returned not_found)
  else if negb (sb_fill_ok s) then mret Raised
  else
    tell (ActSubmit usn) ;;
    (if sb_click_ok s then mret tt else tell (ActInput PromptClickGo)) ;;
    (if sb_captcha s then tell (ActInput PromptCaptcha) else mret tt) ;;
    retry_loop retries s usn (seq 0 (retries + 1)).

Definition submit_and_collect_usn (s : SubmitScript) (usn : string)
    : Logged Outcome :=
  submit_with RETRY_ON_TIMEOUT s usn.

(** ** The per-track loop of [main] (lines 537-567 and 577-606) *)

Fixpoint zeros (n : nat) : string :=
  match n with
  | O => ""
  | S k => "0" +:+ zeros k
  end.

(** [f"{roll:03d}"]: decimal, zero-padded to width 3. *)
Definition format_03d (roll : nat) : string :=
  let d := pretty roll in
  zeros (3 - String.length d) +:+ d.

(** [f"1MS{year}{branch}{roll:03d}"]. *)
Definition usn_of (year branch : string) (roll : nat) : string :=
  "1MS" +:+ year +:+ branch +:+ format_03d roll.

(** [LoopStopped]: the [break] of line 560 was taken.  [LoopAborted]: an
    exception escaped the loop, and with it the plan; the recovery calls
    of lines 559 and 561 are outside any [try].  [LoopPending]: the
    [while True] is still running and is about to process [ls_roll]; the
    model has no more driver answers to feed it. *)
Inductive LoopStatus := LoopStopped | LoopAborted | LoopPending.

Record LoopState := mkLoop {
  ls_status : LoopStatus;
  ls_consec : nat;                       (* consec_oops *)
  ls_roll : nat;                         (* roll *)
  ls_map : gmap string StudentObj;       (* students_map *)
  ls_rest : list Outcome                 (* outcomes not consumed *)
}.

(** The two [while True] loops of [main] are the same text up to the
    variable names; [outcomes] are what the successive calls
    [submit_and_collect_usn(driver, usn)] do, one per iteration, and
    [back roll] are the driver's answers to the recovery call made in the
    iteration of [roll]: inside a [try] after an exception (lines 547-550),
    outside any after a not-found result (lines 559 and 561). *)
Fixpoint track_loop (threshold : nat) (year branch : string)
    (back : nat → GoBackScript)
    (outcomes : list Outcome) (consec_oops roll : nat)
    (students_map : gmap string StudentObj) : Logged LoopState :=
  match outcomes with
  | [] => mret (mkLoop LoopPending consec_oops roll students_map [])
  | o :: rest =>
      let usn := usn_of year branch roll in
      tell (ActProcess usn) ;;
      match o with
      | Raised =>
          recover (back roll) ;;
          track_loop threshold year branch back rest consec_oops (S roll)
                     students_map
      | Returned r =>
          if negb (res_found r) then
            let consec_oops' := S consec_oops in
            let aborted :=
              mkLoop LoopAborted consec_oops' roll students_map rest in
            if bool_decide (threshold ≤ consec_oops')%nat then
              recover_or (back roll) aborted
                (mret (mkLoop LoopStopped consec_oops' roll students_map rest))
            else
              recover_or (back roll) aborted
                (track_loop threshold year branch back rest consec_oops'
                            (S roll) students_map)
          else
            track_loop threshold year branch back rest 0 (S roll)
              (ensure_and_merge students_map usn (res_name r) (res_cgpa r)
                                (res_semesters r))
      end
  end.

(** The normal track of a [(year, branch)] pair (line 537-567). *)
Definition normal_track (year branch : string) (back : nat → GoBackScript)
    (outcomes : list Outcome)
    (students_map : gmap string StudentObj) : Logged LoopState :=
  track_loop MAX_CONSEC_OOPS year branch back outcomes 0 ROLL_START
             students_map.

(** The diploma track (lines 577-606); [dip_year] is [f"{int(year)+1:02d}"]. *)
Definition diploma_track (dip_year branch : string)
    (back : nat → GoBackScript) (outcomes : list Outcome)
    (students_map : gmap string StudentObj) : Logged LoopState :=
  track_loop MAX_CONSEC_OOPS dip_year branch back outcomes 0 DIP_START
             students_map.

(** [plan = [(y, b) for b in BRANCHES for y in YEARS]] (line 500). *)
Definition plan : list (string * string) :=
  b ← BRANCHES; y ← YEARS; [(y, b)].

(** [first_usn] (lines 502-503); [plan] is not empty. *)
Definition first_usn : string :=
  match plan with
  | (first_year, first_branch) :: _ => usn_of first_year first_branch ROLL_START
  | [] => ""
  end.

(** The first, manual submit (lines 518-532): [ind] is what
    [wait_for_either] answers, [view] the page handed to the extractor,
    [g] the driver's answers to the recovery call of line 521 or 532.  The
    result says whether [main] goes on to the plan (no exception escaped),
    and what the aggregate is. *)
Definition first_manual (ind : Indicator) (view : ScrapeScript)
    (g : GoBackScript) (students_map : gmap string StudentObj)
    : Logged (bool * gmap string StudentObj) :=
  tell (ActWait 12) ;;
  match ind with
  | IndOops | IndTimeout =>
      recover_or g (false, students_map) (mret (true, students_map))
  | IndCards | IndTable =>
      o ← scrape_current_usn_view_structured view;
      match o with
      | Raised => mret (false, students_map)
      | Returned r =>
          if res_found r then
            mret (true, ensure_and_merge students_map first_usn (res_name r)
                                         (res_cgpa r) (res_semesters r))
          else mret (true, students_map)
      end
  end.

(** The identifiers handed to [submit_and_collect_usn], in order. *)
Definition processed (log : list Action) : list string :=
  omap (λ a, match a with ActProcess u => Some u | _ => None end) log.

(** ** Vocabulary of the properties *)

(** Every index of the map points into the list. *)
Definition idx_bounded (idx : gmap (option Z) nat) (n : nat) : Prop :=
  ∀ k i, idx !! k = Some i → i < n.

(** How many stored semesters have no number. *)
Definition count_unknown (sems : list SemesterObj) : nat :=
  length (filter (λ s, Semester s = None) sems).

(** The known numbers of the stored semesters, in order. *)
Definition known_numbers (sems : list SemesterObj) : list Z :=
  omap Semester sems.

(** The semesters stored for an identifier, none when it is not in the map. *)
Definition stored_semesters (m : gmap string StudentObj) (usn : string)
    : list SemesterObj :=
  default [] (Semesters <$> m !! usn).

(** The fragments of a call whose number the record does not hold when the
    call starts; line 477 appends them. *)
Definition new_to_record (sems frags : list SemesterObj) : list SemesterObj :=
  filter (λ f, idx_by_sem sems !! Semester f = None) frags.

(** A destination that a fragment cannot change any more: its SGPA is
    known or the fragment's is not, and it holds every triple of the
    fragment. *)
Definition absorbs (dest sem : SemesterObj) : Prop :=
  (SGPA dest = None → SGPA sem = None) ∧
  ∀ c, c ∈ Courses sem → course_key c ∈ existing_keys (Courses dest).

(** A name that [ensure_student] keeps: neither empty nor the placeholder
    that [extract_student_name] returns when it finds nothing. *)
Definition valid_name (n : string) : Prop :=
  n ≠ "" ∧ n ≠ "Name Not Found".

(** The identity triples of a course list. *)
Definition course_keys (cs : list Course) : list (string * string * string) :=
  course_key <$> cs.






(** Reading the log of one submission. *)
Definition is_resubmit (a : Action) : bool :=
  match a with
  | ActResubmit _ => true
  | _ => false
  end.

Definition is_refill (a : Action) : bool :=
  match a with
  | ActRefill _ => true
  | _ => false
  end.

Definition is_input (a : Action) : bool :=
  match a with
  | ActInput _ => true
  | _ => false
  end.

Definition is_prompt (p : Prompt) (a : Action) : bool :=
  match a with
  | ActInput q => bool_decide (q = p)
  | _ => false
  end.

Definition is_escalation (a : Action) : bool :=
  match a with
  | ActInput PromptRetriesExhausted => true
  | _ => false
  end.

Definition count_if (f : Action → bool) (log : list Action) : nat :=
  length (filter (λ a, f a = true) log).

(** Automatic re-submissions that were made, attempts at one (the refill
    is called, it may raise), requests for human input of any kind, of
    one kind, and requests made because the automatic retries are
    exhausted. *)
Definition count_resubmits (log : list Action) : nat := count_if is_resubmit log.
Definition count_refills (log : list Action) : nat := count_if is_refill log.
Definition count_inputs (log : list Action) : nat := count_if is_input log.
Definition count_prompts (p : Prompt) (log : list Action) : nat :=
  count_if (is_prompt p) log.
Definition count_escalations (log : list Action) : nat :=
  count_if is_escalation log.

(** How many of the numbers [a, ..., a + n - 1] satisfy [f]. *)
Definition count_nat (f : nat → bool) (a n : nat) : nat :=
  length (filter (λ k, f k = true) (seq a n)).

(** What is left of a found/not-found decision when the driver shows
    result cards or a result table. *)
Definition shows_result (ind : Indicator) : bool :=
  match ind with
  | IndCards | IndTable => true
  | IndOops | IndTimeout => false
  end.





(** The outcome is one of the not-found results after which the loop
    calls the recovery outside any [try]. *)
Definition absent_at (os : list Outcome) (k : nat) : Prop :=
  ∃ r, os !! k = Some (Returned r) ∧ res_found r = false.


(** A stored semester with at least one course. *)
Definition has_courses (s : SemesterObj) : Prop := Courses s ≠ [].

Definition aggregate_has_courses (m : gmap string StudentObj) : Prop :=
  map_Forall (λ _ st, Forall has_courses (Semesters st)) m.

(** The tuples of the extractor: every fragment has a course, and
    [found_any] says whether there is a fragment. *)
Definition well_formed (r : Result) : Prop :=
  Forall has_courses (res_semesters r) ∧
  (res_found r = true ↔ res_semesters r ≠ []).

(** A table row that yields a course: at least five cells, a code and a
    name. *)
Definition row_parses (r : Row) : Prop :=
  5 ≤ length (cells r) ∧
  default "" (cells r !! 0) ≠ "" ∧
  default "" (cells r !! 1) ≠ "".

Definition no_row_parses (page : PageData) : Prop :=
  Forall (λ r, ¬ row_parses r) (pd_rows page).

(** No page the extractor reads for this script has a course row that
    parses. *)
Definition no_course_rows (s : ScrapeScript) : Prop :=
  Forall (λ v, no_row_parses (cv_page v)) (ss_visits s) ∧
  no_row_parses (ss_direct_page s).

End Scraper.

Arguments SemesterObj : clear implicits.
Arguments StudentObj : clear implicits.
Arguments PageData : clear implicits.
Arguments CardVisit : clear implicits.
Arguments ScrapeScript : clear implicits.
Arguments Result : clear implicits.
Arguments SubmitScript : clear implicits.
Arguments Outcome : clear implicits.
Arguments LoopState : clear implicits.

(** ** The driver helpers (lines 66-174) *)

(** [needle in hay]. *)
Fixpoint contains (needle hay : string) : bool :=
  String.prefix needle hay ||
  match hay with
  | EmptyString => false
  | String _ rest => contains needle rest
  end.

(** [page_has_oops] (lines 66-70); [src] is [driver.page_source.lower()]. *)
Definition page_has_oops (src : string) : bool :=
  contains "oops!!! your usn could not be found" src ||
  contains "could not be found in our result database" src ||
  contains "your usn could not be found" src.

(** The entries of [selectors] (lines 103-108). *)
Inductive Selector := SelGoValue | SelSubmitType | SelButtonText | SelBtn7.

Definition selectors : list Selector :=
  [SelGoValue; SelSubmitType; SelButtonText; SelBtn7].

(** What the [try] of lines 110-115 does for one selector: no such element,
    an element whose click raises, an element that is clicked. *)
Inductive SelectorAnswer := SelMissing | SelClickRaises | SelClicked.

#[export] Instance SelectorAnswer_eq_dec : EqDecision SelectorAnswer.
Proof. solve_decision. Defined.

(** What the fallback of lines 117-122 does: no entry field, a field whose
    [send_keys] raises, a field that takes RETURN. *)
Inductive EnterAnswer := EnterNoField | EnterRaises | EnterSent.

#[export] Instance EnterAnswer_eq_dec : EqDecision EnterAnswer.
Proof. solve_decision. Defined.

Record ClickScript := mkClick {
  ck_selector : Selector → SelectorAnswer;
  ck_enter : EnterAnswer
}.

(** What is done to the page: a click on the element a selector found
    (whether or not the click raises), RETURN sent to the entry field
    (whether or not that raises). *)
Inductive GoAttempt := TryClick (sel : Selector) | TryEnter.

Fixpoint click_loop (s : ClickScript) (sels : list Selector)
    : bool * list GoAttempt :=
  match sels with
  | [] => (false, [])
  | sel :: rest =>
      match ck_selector s sel with
      | SelClicked => (true, [TryClick sel])
      | SelClickRaises =>
          let r := click_loop s rest in (r.1, TryClick sel :: r.2)
      | SelMissing => click_loop s rest
      end
  end.

(** [click_go_button] (lines 102-122). *)
Definition click_go_button (s : ClickScript) : bool * list GoAttempt :=
  let clicks := click_loop s selectors in
  if clicks.1 then clicks
  else
    match ck_enter s with
    | EnterNoField => (false, clicks.2)
    | EnterRaises => (false, clicks.2 ++ [TryEnter])
    | EnterSent => (true, clicks.2 ++ [TryEnter])
    end.

(** What one iteration of the polling loop of [wait_for_either] sees. *)
Record Poll := mkPoll {
  pl_oops : bool;    (* page_has_oops(driver) *)
  pl_cards : bool;   (* elements of class cn-result-card *)
  pl_header : bool;  (* div.student-header p *)
  pl_table : bool    (* the tbody of the result table *)
}.

(** Lines 136-144. *)
Definition poll_indicator (p : Poll) : option Indicator :=
  if pl_oops p then Some IndOops
  else if pl_cards p then Some IndCards
  else if pl_header p || pl_table p then Some IndTable
  else None.

(** [wait_for_either] (lines 125-146); [polls] are the states of the page
    at the iterations that start before the deadline. *)
Fixpoint wait_for_either (polls : list Poll) : Indicator :=
  match polls with
  | [] => IndTimeout
  | p :: rest =>
      match poll_indicator p with
      | Some ind => ind
      | None => wait_for_either rest
      end
  end.

Section StudentName.

(** Python's [str.lower], left abstract. *)
Variable lower : string → string.

(** [t and t.lower() not in ("semester", "result", "exam")]. *)
Definition name_acceptable (t : string) : bool :=
  negb (bool_decide (t = "")) &&
  negb (bool_decide (lower t ∈ ["semester"; "result"; "exam"])).

(** The elements of one selector (lines 167-171): the stripped text of each,
    [None] where reading it raises, which gives the selector up. *)
Fixpoint scan_elements (els : list (option string)) : option string :=
  match els with
  | [] => None
  | None :: _ => None
  | Some t :: rest =>
      if name_acceptable t then Some t else scan_elements rest
  end.

(** [extract_student_name] (lines 156-174); [answers] holds the elements
    of each entry of [try_selectors] in order, none for a selector whose
    [find_elements] raises. *)
Fixpoint extract_student_name (answers : list (list (option string)))
    : string :=
  match answers with
  | [] => "Name Not Found"
  | els :: rest =>
      match scan_elements els with
      | Some t => t
      | None => extract_student_name rest
      end
  end.

End StudentName.

(** ** More vocabulary *)

Section MoreVocabulary.

Context {gpa : Type}.

(** A stored semester and what a merge may make of it: the same number,
    the old courses first, a known SGPA kept. *)
Definition semester_extends (s s' : SemesterObj gpa) : Prop :=
  Semester s' = Semester s ∧
  Courses s `prefix_of` Courses s' ∧
  (∀ v, SGPA s = Some v → SGPA s' = Some v).

(** Every semester keeps its position. *)
Definition semesters_extend (sems sems' : list (SemesterObj gpa)) : Prop :=
  ∀ i s, sems !! i = Some s →
    ∃ s', sems' !! i = Some s' ∧ semester_extends s s'.

(** Every student stays in the aggregate and keeps its semesters. *)
Definition aggregate_extends (m m' : gmap string (StudentObj gpa)) : Prop :=
  ∀ usn st, m !! usn = Some st →
    ∃ st', m' !! usn = Some st' ∧
           semesters_extend (Semesters st) (Semesters st').

(** Every record is filed under its own identifier. *)
Definition aggregate_keyed (m : gmap string (StudentObj gpa)) : Prop :=
  map_Forall (λ usn st, USN st = usn) m.

(** No record has an empty name. *)
Definition aggregate_named (m : gmap string (StudentObj gpa)) : Prop :=
  map_Forall (λ _ st, Name st ≠ "") m.

(** The course a parsing row gives. *)
Definition course_of_row (r : Row) : Course :=
  {| Course_Code := default "" (cells r !! 0);
     Course_Name := default "" (cells r !! 1);
     Grade := default "" (cells r !! 4);
     Timestamp := row_time r |}.


(** Every found tuple carries a name that is not empty. *)
Definition names_given (os : list (Outcome gpa)) : Prop :=
  Forall (λ o, ∀ r, o = Returned r → res_found r = true →
            ∃ n, res_name r = Some n ∧ n ≠ "") os.

End MoreVocabulary.

#[export] Instance row_parses_dec (r : Row) : Decision (row_parses r).
Proof. unfold row_parses. apply _. Defined.

(** The first submit of a call. *)
Definition is_submit (a : Action) : bool :=
  match a with
  | ActSubmit _ => true
  | _ => false
  end.

(** What the extractor does to the browser: a click on a view control, a
    wait, a step back, the recovery to the entry page. *)
Definition is_view_action (a : Action) : bool :=
  match a with
  | ActClickView _ | ActWait _ | ActBack | ActRecoverEntry | ActNav _ => true
  | _ => false
  end.

(** The value of a string of decimal digits, read left to right. *)
Definition digit_value (c : Ascii.ascii) : N :=
  (Ascii.N_of_ascii c - 48)%N.

Fixpoint digits_value (acc : N) (s : string) : N :=
  match s with
  | EmptyString => acc
  | String c rest => digits_value (10 * acc + digit_value c)%N rest
  end.

(** ** Sample data

    In the samples a grade-point value is written as the decimal text it
    was parsed from. *)

Definition ex_algo : Course := mkCourse "CS301" "Algo" "A" "10:15:00".
Definition ex_os : Course := mkCourse "CS302" "OS" "B" "10:15:02".

(** Two fragments of one result page that both carry semester number 3. *)
Definition ex_sem3_algo : SemesterObj string :=
  mkSemester (Some 3%Z) (Some "8.5") [ex_algo].
Definition ex_sem3_os : SemesterObj string :=
  mkSemester (Some 3%Z) None [ex_os].
Definition ex_sem3_both : SemesterObj string :=
  mkSemester (Some 3%Z) None [ex_algo; ex_os].

(** A fragment whose table lists the same course row twice. *)
Definition ex_sem3_repeated : SemesterObj string :=
  mkSemester (Some 3%Z) None [ex_algo; ex_algo].

(** Fragments whose header gave no semester number. *)
Definition ex_unknown_algo : SemesterObj string :=
  mkSemester None None [ex_algo].
Definition ex_unknown_os : SemesterObj string :=
  mkSemester None None [ex_os].

Definition ex_usn : string := "1MS21AD001".

Definition ex_new_student : StudentObj string :=
  mkStudent ex_usn "A Student" None [].

Definition ex_student_unknown : StudentObj string :=
  mkStudent ex_usn "A Student" None [ex_unknown_algo].

Definition ex_placeholder_student : StudentObj string :=
  mkStudent ex_usn "Name Not Found" (Some "7.9") [].

(** A result page with one row that parses. *)
Definition ex_page_algo : PageData string :=
  mkPage (Some 3%Z) (Some "8.5") (Some "8.1")
         [mkRow ["CS301"; "Algo"; "4"; "40"; "A"] "10:15:00"].

Definition ex_page_os : PageData string :=
  mkPage (Some 4%Z) None None
         [mkRow ["CS302"; "OS"; "4"; "36"; "B"] "10:15:02"].

(** A result page whose rows do not parse: too few cells, no code. *)
Definition ex_page_empty : PageData string :=
  mkPage (Some 5%Z) None None
         [mkRow ["CS303"; "DB"] "10:15:04";
          mkRow [""; "Networks"; "4"; "30"; "C"] "10:15:05"].

(** Ways back: the first step back in the history finds the entry field;
    every way fails; the first step back raises something else than a
    timeout. *)
Definition ex_back_ok : GoBackScript := mkGoBack (λ _, BackOk) true true.
Definition ex_back_lost : GoBackScript :=
  mkGoBack (λ _, BackTimeout) false false.
Definition ex_back_broken : GoBackScript :=
  mkGoBack (λ _, BackError) false false.

(** Three cards: the first and the third open their table, the second
    ends on the not-found page. *)
Definition ex_card_algo : CardVisit string :=
  mkVisit 3 true true IndTable ex_page_algo true ex_back_ok.
Definition ex_card_oops : CardVisit string :=
  mkVisit 3 true true IndOops ex_page_empty true ex_back_ok.
Definition ex_card_os : CardVisit string :=
  mkVisit 3 true true IndTable ex_page_os true ex_back_ok.

Definition ex_view : ScrapeScript string :=
  mkScrape false "A Student" [ex_card_algo; ex_card_oops; ex_card_os]
           false ex_page_empty ex_back_ok.





(** A submission answered at the first wait. *)
Definition ex_script_found : SubmitScript string :=
  mkSubmit true ex_back_ok true true true true false (λ _, IndCards)
           (λ _, true) (λ _, true) (λ _, false) IndTimeout ex_view.

(** A submission whose every wait times out, while the captcha is on
    display after the first submit. *)
Definition ex_script_captcha : SubmitScript string :=
  mkSubmit true ex_back_ok true true true true true (λ _, IndTimeout)
           (λ _, true) (λ _, true) (λ _, false) IndTimeout ex_view.

(** A submission whose every wait times out and whose every refill
    raises. *)
Definition ex_script_stale : SubmitScript string :=
  mkSubmit true ex_back_ok true true true true false (λ _, IndTimeout)
           (λ _, false) (λ _, true) (λ _, false) IndTimeout ex_view.

(** The outcomes of the rolls 1 to 7 in the scenario of the stopping rule. *)
Definition ex_present : Outcome string :=
  Returned (true, Some "A Student", None, [ex_sem3_algo]).
Definition ex_absent : Outcome string := Returned not_found.
Definition ex_outcomes : list (Outcome string) :=
  [ex_present; ex_absent; ex_absent; ex_absent; ex_absent; ex_absent;
   ex_present].

(** A record that holds semester 3, and a fragment for semester 4. *)
Definition ex_student_sem3 : StudentObj string :=
  mkStudent ex_usn "A Student" None [ex_sem3_algo].
Definition ex_sem4_os : SemesterObj string :=
  mkSemester (Some 4%Z) None [ex_os].

(** A submission whose first wait times out and whose second shows the
    cards. *)
Definition ex_script_late : SubmitScript string :=
  mkSubmit true ex_back_ok true true true true false
           (λ k, if bool_decide (k = 0) then IndTimeout else IndCards)
           (λ _, true) (λ _, true) (λ _, false) IndTimeout ex_view.

(** What the extractor makes of the three cards of [ex_view]. *)
Definition ex_result : Result string :=
  (true, Some "A Student", Some "8.1", [ex_sem3_algo; ex_sem4_os]).

(** The first two selectors find nothing, the click on the third raises,
    the fourth takes it. *)
Definition ex_click : ClickScript :=
  mkClick (λ sel, match sel with
                  | SelButtonText => SelClickRaises
                  | SelBtn7 => SelClicked
                  | _ => SelMissing
                  end) EnterSent.

(** No selector finds an element and the entry field is not there. *)
Definition ex_click_nothing : ClickScript :=
  mkClick (λ _, SelMissing) EnterNoField.

(** A blank poll, then a poll that shows the not-found text together with
    cards. *)
Definition ex_polls : list Poll :=
  [mkPoll false false false false; mkPoll true true false false].

(** The headings of a result page, by selector: nothing for the first, a
    reserved word and the name for the second. *)
Definition ex_headings : list (list (option string)) :=
  [[]; [Some "Result"; Some "A Student"]; [Some "Exam"]].

(** A lower-casing that is right on the three reserved words as the page
    spells them. *)
Definition ex_lower (t : string) : string :=
  if bool_decide (t = "Result") then "result"
  else if bool_decide (t = "Exam") then "exam"
  else if bool_decide (t = "Semester") then "semester"
  else t.

(** * Properties *)

Section MergeFacts.

Context {gpa : Type}.

Implicit Types (s dest sem : SemesterObj gpa) (sems frags : list (SemesterObj gpa)).
Implicit Types (st : StudentObj gpa) (m : gmap string (StudentObj gpa)).
Implicit Types (idx : gmap (option Z) nat).

Lemma filter_is_nil {A} (P : A → Prop) `{!∀ x, Decision (P x)} (l : list A) :
  (∀ x, x ∈ l → ¬ P x) → filter P l = [].
Proof.
  intros Hno. destruct (filter P l) as [|x l'] eqn:E; [done|].
  assert (x ∈ filter P l) as Hx by (rewrite E; left).
  apply list_elem_of_filter in Hx as [HP Hx]. by destruct (Hno x Hx).
Qed.

(** *** The index map *)

Lemma idx_by_sem_snoc sems s :
  idx_by_sem (sems ++ [s]) = <[Semester s := length sems]> (idx_by_sem sems).
Proof.
  unfold idx_by_sem. rewrite imap_app, foldl_app. simpl.
  by rewrite Nat.add_0_r.
Qed.

Lemma idx_by_sem_None sems k :
  idx_by_sem sems !! k = None ↔ ∀ s, s ∈ sems → Semester s ≠ k.
Proof.
  induction sems as [|s sems IH] using rev_ind.
  - split; [intros _ s Hs; by apply elem_of_nil in Hs | done].
  - rewrite idx_by_sem_snoc. split.
    + intros H s' Hs'. apply lookup_insert_None in H as [H Hne].
      apply elem_of_app in Hs' as [Hs'|Hs'].
      * by apply IH.
      * apply list_elem_of_singleton in Hs'. by subst.
    + intros H. apply lookup_insert_None. split.
      * apply IH. intros s' Hs'. apply H, elem_of_app. by left.
      * apply H, elem_of_app. right. by apply list_elem_of_singleton.
Qed.

(** The index stored for a number is the last position that carries it. *)
Lemma idx_by_sem_Some sems k i :
  idx_by_sem sems !! k = Some i ↔
  (∃ s, sems !! i = Some s ∧ Semester s = k) ∧
  (∀ j s', i < j → sems !! j = Some s' → Semester s' ≠ k).
Proof.
  revert i. induction sems as [|s sems IH] using rev_ind; intros i.
  - split; [done | by intros [(s & Hs & _) _]].
  - rewrite idx_by_sem_snoc.
    destruct (decide (Semester s = k)) as [Heq|Hne].
    + rewrite Heq, lookup_insert_eq. split.
      * intros [= <-]. split.
        -- exists s. split; [|done].
           by rewrite lookup_app_r, Nat.sub_diag by lia.
        -- intros j s' Hj Hs'. apply lookup_lt_Some in Hs'.
           rewrite length_app in Hs'. simpl in Hs'. lia.
      * intros [(s0 & Hs0 & Hk) Hlast].
        destruct (decide (i = length sems)) as [->|Hi]; [done|].
        exfalso. apply (Hlast (length sems) s); [|by rewrite lookup_app_r, Nat.sub_diag by lia|done].
        apply lookup_lt_Some in Hs0. rewrite length_app in Hs0. simpl in Hs0. lia.
    + rewrite lookup_insert_ne by done. rewrite IH. split.
      * intros [(s0 & Hs0 & Hk) Hlast]. split.
        -- exists s0. split; [|done]. by apply lookup_app_l_Some.
        -- intros j s' Hj Hs'. apply lookup_app_Some in Hs' as [Hs'|[Hlen Hs']].
           ++ by eapply Hlast.
           ++ apply list_lookup_singleton_Some in Hs' as [_ <-]. done.
      * intros [(s0 & Hs0 & Hk) Hlast]. split.
        -- exists s0. split; [|done].
           apply lookup_app_Some in Hs0 as [Hs0|[Hlen Hs0]]; [done|].
           apply list_lookup_singleton_Some in Hs0 as [_ <-]. done.
        -- intros j s' Hj Hs'. eapply Hlast; [done|]. by apply lookup_app_l_Some.
Qed.

(** The [IndexError] branch of [merge_one] is dead. *)
Lemma idx_in_range sems k i :
  idx_by_sem sems !! k = Some i → i < length sems.
Proof.
  intros H. apply idx_by_sem_Some in H as [(s & Hs & _) _].
  by eapply lookup_lt_Some.
Qed.

(** *** One destination semester *)

Lemma append_new_courses_filter (existing : gset (string * string * string))
    (dest_courses incoming : list Course) :
  append_new_courses existing dest_courses incoming =
  dest_courses ++ filter (λ c, course_key c ∉ existing) incoming.
Proof.
  unfold append_new_courses. revert dest_courses.
  induction incoming as [|c incoming IH]; intros dest_courses; simpl.
  - by rewrite app_nil_r.
  - rewrite IH. case_bool_decide.
    + by rewrite filter_cons_False by (intros Hn; by apply Hn).
    + by rewrite filter_cons_True, <- app_assoc by done.
Qed.

Lemma merge_into_Semester dest sem : Semester (merge_into dest sem) = Semester dest.
Proof. unfold merge_into. by destruct (SGPA dest), (SGPA sem). Qed.

Lemma merge_into_Courses dest sem :
  Courses (merge_into dest sem) =
  Courses dest ++
  filter (λ c, course_key c ∉ existing_keys (Courses dest)) (Courses sem).
Proof.
  unfold merge_into. rewrite <- append_new_courses_filter.
  by destruct (SGPA dest), (SGPA sem).
Qed.

Lemma merge_into_SGPA dest sem :
  SGPA (merge_into dest sem) =
  match SGPA dest with
  | Some v => Some v
  | None => SGPA sem
  end.
Proof.
  unfold merge_into.
  destruct (SGPA dest) eqn:Hd, (SGPA sem) eqn:Hs; simpl; congruence.
Qed.

(** *** The fragment loop *)

Lemma idx_by_sem_bounded sems : idx_bounded (idx_by_sem sems) (length sems).
Proof. intros k i. apply idx_in_range. Qed.

Lemma merge_one_length idx sems sem :
  length sems ≤ length (merge_one idx sems sem).
Proof.
  unfold merge_one. destruct (idx !! Semester sem) as [i|].
  - destruct (sems !! i); [by rewrite length_insert | done].
  - rewrite length_app. lia.
Qed.

(** The numbers held by the list after one iteration: an indexed fragment
    leaves them as they are, any other fragment adds its own at the end. *)
Lemma merge_one_numbers idx sems sem :
  Semester <$> merge_one idx sems sem =
  (Semester <$> sems) ++
  match idx !! Semester sem with
  | Some _ => []
  | None => [Semester sem]
  end.
Proof.
  unfold merge_one. destruct (idx !! Semester sem) as [i|].
  - rewrite app_nil_r. destruct (sems !! i) as [dest|] eqn:Hi; [|done].
    rewrite list_fmap_insert, merge_into_Semester.
    apply list_insert_id. by rewrite list_lookup_fmap, Hi.
  - by rewrite fmap_app.
Qed.

Lemma merge_loop_numbers idx sems frags :
  Semester <$> foldl (merge_one idx) sems frags =
  (Semester <$> sems) ++
  (Semester <$> filter (λ f, idx !! Semester f = None) frags).
Proof.
  revert sems. induction frags as [|f frags IH]; intros sems; simpl.
  - by rewrite app_nil_r.
  - rewrite IH, merge_one_numbers.
    destruct (idx !! Semester f) as [i|] eqn:Hf.
    + rewrite app_nil_r, filter_cons_False; [done|]. by rewrite Hf.
    + rewrite filter_cons_True by done. by rewrite <- app_assoc.
Qed.

(** *** A single fragment *)

Lemma merge_semesters_indexed st f i dest :
  idx_by_sem (Semesters st) !! Semester f = Some i →
  Semesters st !! i = Some dest →
  Semesters (merge_semesters st [f]) = <[i := merge_into dest f]> (Semesters st).
Proof.
  intros Hidx Hdest. unfold merge_semesters, merge_one. simpl.
  by rewrite Hidx, Hdest.
Qed.

Lemma merge_semesters_fresh st f :
  (∀ s, s ∈ Semesters st → Semester s ≠ Semester f) →
  Semesters (merge_semesters st [f]) = Semesters st ++ [f].
Proof.
  intros Hfresh. apply idx_by_sem_None in Hfresh.
  unfold merge_semesters, merge_one. simpl. by rewrite Hfresh.
Qed.

Lemma count_unknown_numbers sems :
  count_unknown sems = length (filter (λ k, k = None) (Semester <$> sems)).
Proof.
  unfold count_unknown. induction sems as [|s sems IH]; [done|].
  rewrite fmap_cons, !filter_cons.
  destruct (decide (Semester s = None)); simpl; by rewrite IH.
Qed.

(** C2 (amended): [None] is a dictionary key like any other.  When the
    record already holds a semester without a number, no fragment without a
    number is appended by [merge_semesters]: the count of unknown-number
    semesters stays what it was, and a single such fragment is folded into
    the last stored unknown-number semester. *)
Theorem unknown_number_fragment_is_coalesced st frags :
  (∃ s, s ∈ Semesters st ∧ Semester s = None) →
  count_unknown (Semesters (merge_semesters st frags)) =
    count_unknown (Semesters st) ∧
  ∀ f, Semester f = None →
    ∃ i dest,
      idx_by_sem (Semesters st) !! None = Some i ∧
      Semesters st !! i = Some dest ∧
      Semester dest = None ∧
      Semesters (merge_semesters st [f]) =
        <[i := merge_into dest f]> (Semesters st) ∧
      length (Semesters (merge_semesters st [f])) = length (Semesters st).
Proof.
  intros (s0 & Hin & Hnone).
  assert (is_Some (idx_by_sem (Semesters st) !! None)) as [i Hi].
  { destruct (idx_by_sem (Semesters st) !! None) eqn:E; [by eexists|].
    exfalso. by eapply (proj1 (idx_by_sem_None _ _) E s0). }
  split.
  - rewrite !count_unknown_numbers. unfold merge_semesters. simpl.
    rewrite merge_loop_numbers, filter_app, length_app.
    assert (filter (λ k : option Z, k = None)
              (Semester <$> filter
                 (λ f, idx_by_sem (Semesters st) !! Semester f = None) frags)
            = []) as ->; [|simpl; lia].
    apply filter_is_nil. intros k Hin' Hk. subst k.
    apply list_elem_of_fmap in Hin' as (f & Hf & Hin').
    apply list_elem_of_filter in Hin' as [Hidx _].
    rewrite <- Hf in Hidx. congruence.
  - intros f Hf.
    pose proof Hi as Hi'. apply idx_by_sem_Some in Hi' as [(dest & Hdest & Hk) _].
    exists i, dest. split_and!; [done..| |].
    + apply merge_semesters_indexed; [by rewrite Hf | done].
    + erewrite merge_semesters_indexed; [|by rewrite Hf | done].
      by rewrite length_insert.
Qed.

(** *** Repeated numbers in one call *)

(** The index map is computed before the loop and is not extended by the
    appends of line 477. *)
Lemma merge_semesters_all_fresh st frags :
  (∀ f, f ∈ frags → ∀ s, s ∈ Semesters st → Semester s ≠ Semester f) →
  Semesters (merge_semesters st frags) = Semesters st ++ frags.
Proof.
  intros Hfresh. unfold merge_semesters. simpl.
  set (idx := idx_by_sem (Semesters st)).
  assert (∀ f, f ∈ frags → idx !! Semester f = None) as Hidx.
  { intros f Hf. apply idx_by_sem_None. by apply Hfresh. }
  clear Hfresh. generalize (Semesters st) as sems.
  induction frags as [|f frags IH]; intros sems; simpl.
  - by rewrite app_nil_r.
  - rewrite IH.
    + unfold merge_one. rewrite Hidx by left. by rewrite <- app_assoc.
    + intros f' Hf'. apply Hidx. by right.
Qed.

(** C7: two fragments of one call that carry the same number, a number the
    record does not hold yet, are both appended; the record then holds two
    semesters with that number. *)
Theorem same_number_twice_in_one_call st f1 f2 (n : Z) :
  Semester f1 = Some n →
  Semester f2 = Some n →
  (∀ s, s ∈ Semesters st → Semester s ≠ Some n) →
  Semesters (merge_semesters st [f1; f2]) = Semesters st ++ [f1; f2] ∧
  ¬ NoDup (known_numbers (Semesters (merge_semesters st [f1; f2]))).
Proof.
  intros H1 H2 Hfresh.
  assert (Semesters (merge_semesters st [f1; f2]) = Semesters st ++ [f1; f2])
    as Heq.
  { apply merge_semesters_all_fresh. intros f Hf s Hs.
    apply elem_of_cons in Hf as [->|Hf].
    - rewrite H1. by apply Hfresh.
    - apply list_elem_of_singleton in Hf as ->. rewrite H2. by apply Hfresh. }
  split; [done|].
  rewrite Heq. unfold known_numbers. rewrite omap_app. simpl.
  rewrite H1, H2. simpl. intros Hnd.
  apply NoDup_app in Hnd as (_ & _ & Hnd).
  apply NoDup_cons in Hnd as [Hnotin _]. apply Hnotin. left.
Qed.

(** X6: the known semester numbers of a record stay pairwise distinct over
    a call of [merge_semesters] in which the fragments whose number is new
    to the record carry pairwise distinct numbers. *)
Lemma merge_keeps_numbers_distinct st frags :
  NoDup (known_numbers (Semesters st)) →
  NoDup (known_numbers
           (filter (λ f, idx_by_sem (Semesters st) !! Semester f = None) frags)) →
  NoDup (known_numbers (Semesters (merge_semesters st frags))).
Proof.
  intros Hst Hnew. unfold merge_semesters. simpl.
  set (idx := idx_by_sem (Semesters st)) in *.
  assert (∀ l : list (SemesterObj gpa),
            known_numbers l = omap id (Semester <$> l)) as Hkn.
  { intros l. unfold known_numbers. induction l as [|x l IH]; [done|].
    simpl. destruct (Semester x); simpl; [f_equal|]; exact IH. }
  rewrite Hkn, merge_loop_numbers, omap_app, <- !Hkn.
  apply NoDup_app. split_and!; [done| |done].
  intros n Hn Hn'. unfold known_numbers in Hn, Hn'.
  apply list_elem_of_omap in Hn as (s & Hs & Hsn).
  apply list_elem_of_omap in Hn' as (f & Hf & Hfn).
  apply list_elem_of_filter in Hf as [Hidx _].
  apply (proj1 (idx_by_sem_None _ _) Hidx s Hs). congruence.
Qed.

(** *** Course identity *)

Lemma course_keys_filter (existing : gset (string * string * string))
    (cs : list Course) :
  course_keys (filter (λ c, course_key c ∉ existing) cs) =
  filter (λ k, k ∉ existing) (course_keys cs).
Proof.
  unfold course_keys. induction cs as [|c cs IH]; [done|].
  rewrite fmap_cons, !filter_cons.
  destruct (decide (course_key c ∉ existing)); [rewrite fmap_cons|];
    by rewrite IH.
Qed.

Lemma merge_into_keys dest sem :
  course_keys (Courses (merge_into dest sem)) =
  course_keys (Courses dest) ++
  filter (λ k, k ∉ existing_keys (Courses dest)) (course_keys (Courses sem)).
Proof.
  rewrite merge_into_Courses. unfold course_keys at 1. rewrite fmap_app.
  f_equal. apply course_keys_filter.
Qed.

(** Merging into a duplicate-free destination a duplicate-free fragment
    gives the union of the two triple sets, each triple once. *)
Lemma merge_into_dedup dest sem :
  NoDup (course_keys (Courses dest)) →
  NoDup (course_keys (Courses sem)) →
  NoDup (course_keys (Courses (merge_into dest sem))) ∧
  length (Courses (merge_into dest sem)) =
    size (existing_keys (Courses dest) ∪ existing_keys (Courses sem)).
Proof.
  intros Hd Hs.
  assert (NoDup (course_keys (Courses (merge_into dest sem)))) as Hnd.
  { rewrite merge_into_keys. apply NoDup_app. split_and!; [done| |].
    - intros k Hk Hin. apply list_elem_of_filter in Hin as [Hnot _].
      apply Hnot. unfold existing_keys. by apply elem_of_list_to_set.
    - by apply NoDup_filter. }
  split; [done|].
  rewrite <- (length_fmap course_key).
  change (course_key <$> Courses (merge_into dest sem))
    with (course_keys (Courses (merge_into dest sem))).
  rewrite <- (size_list_to_set (C := gset (string * string * string))) by done.
  f_equal. rewrite merge_into_keys. unfold existing_keys.
  apply set_eq. intros k.
  rewrite elem_of_union, !elem_of_list_to_set, elem_of_app, list_elem_of_filter.
  rewrite elem_of_list_to_set. unfold course_keys.
  destruct (decide (k ∈ course_key <$> Courses dest)); tauto.
Qed.

(** C6 (amended): two fragments with the same number, neither repeating a
    triple in its own course list, merged by two successive calls into a
    record that has no semester with that number, leave one semester with
    that number; its course list has no duplicate triple and as many courses
    as the union of the two triple sets has elements. *)
Theorem course_identity_dedup st f1 f2 :
  Semester f2 = Semester f1 →
  (∀ s, s ∈ Semesters st → Semester s ≠ Semester f1) →
  NoDup (course_keys (Courses f1)) →
  NoDup (course_keys (Courses f2)) →
  ∃ merged,
    Semesters (merge_semesters (merge_semesters st [f1]) [f2]) =
      Semesters st ++ [merged] ∧
    Semester merged = Semester f1 ∧
    NoDup (course_keys (Courses merged)) ∧
    length (Courses merged) =
      size (existing_keys (Courses f1) ∪ existing_keys (Courses f2)).
Proof.
  intros Hnum Hfresh Hd1 Hd2.
  exists (merge_into f1 f2).
  pose proof (merge_semesters_fresh st f1 Hfresh) as H1.
  assert (idx_by_sem (Semesters (merge_semesters st [f1])) !! Semester f2
          = Some (length (Semesters st))) as Hidx.
  { rewrite H1, idx_by_sem_snoc, Hnum. apply lookup_insert_eq. }
  assert (Semesters (merge_semesters st [f1]) !! length (Semesters st)
          = Some f1) as Hdest.
  { rewrite H1. by rewrite lookup_app_r, Nat.sub_diag by lia. }
  rewrite (merge_semesters_indexed _ _ _ _ Hidx Hdest), H1.
  split_and!.
  - rewrite insert_app_r_alt, Nat.sub_diag by lia. done.
  - apply merge_into_Semester.
  - by apply merge_into_dedup.
  - by apply merge_into_dedup.
Qed.

(** *** Merging the same fragments again *)

Lemma merge_into_absorbed dest sem : absorbs dest sem → merge_into dest sem = dest.
Proof.
  intros [Hsgpa Hkeys]. unfold merge_into.
  assert (match SGPA dest, SGPA sem with
          | None, Some v => set_SGPA (Some v) dest
          | _, _ => dest
          end = dest) as ->.
  { destruct (SGPA dest) eqn:Hd; [done|].
    by rewrite (Hsgpa eq_refl). }
  rewrite append_new_courses_filter, filter_is_nil, app_nil_r.
  - by destruct dest.
  - intros c Hc Hnot. by apply Hnot, Hkeys.
Qed.

Lemma absorbs_refl sem : absorbs sem sem.
Proof.
  split; [done|]. intros c Hc. unfold existing_keys.
  apply elem_of_list_to_set, list_elem_of_fmap. by exists c.
Qed.

Lemma existing_keys_merge_into dest sem k :
  k ∈ existing_keys (Courses (merge_into dest sem)) ↔
  k ∈ existing_keys (Courses dest) ∨ k ∈ existing_keys (Courses sem).
Proof.
  unfold existing_keys at 1. rewrite elem_of_list_to_set.
  change (course_key <$> Courses (merge_into dest sem))
    with (course_keys (Courses (merge_into dest sem))).
  rewrite merge_into_keys, elem_of_app, list_elem_of_filter.
  unfold existing_keys, course_keys. rewrite !elem_of_list_to_set.
  destruct (decide (k ∈ course_key <$> Courses dest)); tauto.
Qed.

Lemma absorbs_merge_into dest sem : absorbs (merge_into dest sem) sem.
Proof.
  split.
  - rewrite merge_into_SGPA. by destruct (SGPA dest).
  - intros c Hc. apply existing_keys_merge_into. right.
    unfold existing_keys. apply elem_of_list_to_set, list_elem_of_fmap.
    by exists c.
Qed.

Lemma absorbs_mono dest sem other :
  absorbs dest sem → absorbs (merge_into dest other) sem.
Proof.
  intros [Hsgpa Hkeys]. split.
  - rewrite merge_into_SGPA. destruct (SGPA dest); [done|]. intros _. by apply Hsgpa.
  - intros c Hc. apply existing_keys_merge_into. left. by apply Hkeys.
Qed.

(** The appended fragments form the tail of the list, untouched. *)
Lemma merge_loop_tail idx sems frags n :
  idx_bounded idx n →
  n ≤ length sems →
  drop n (foldl (merge_one idx) sems frags) =
  drop n sems ++ filter (λ f, idx !! Semester f = None) frags.
Proof.
  intros Hidx. revert sems. induction frags as [|f frags IH]; intros sems Hn.
  - by rewrite app_nil_r.
  - simpl. rewrite IH by (etrans; [done|apply merge_one_length]).
    unfold merge_one. destruct (idx !! Semester f) as [i|] eqn:Hf.
    + rewrite filter_cons_False by (by rewrite Hf).
      destruct (sems !! i); [|done].
      by rewrite drop_insert_lt by (by eapply Hidx).
    + rewrite filter_cons_True by done.
      by rewrite drop_app_le, <- app_assoc by done.
Qed.

Lemma merge_one_keeps_absorbed idx sems other i sem :
  (∃ d, sems !! i = Some d ∧ absorbs d sem) →
  ∃ d, merge_one idx sems other !! i = Some d ∧ absorbs d sem.
Proof.
  intros (d & Hd & Habs). unfold merge_one.
  destruct (idx !! Semester other) as [j|].
  - destruct (sems !! j) as [dest|] eqn:Hj; [|by exists d].
    destruct (decide (j = i)) as [->|Hne].
    + exists (merge_into dest other). split.
      * apply list_lookup_insert_eq. by eapply lookup_lt_Some.
      * assert (dest = d) as -> by congruence. by apply absorbs_mono.
    + exists d. by rewrite list_lookup_insert_ne.
  - exists d. split; [|done]. by apply lookup_app_l_Some.
Qed.

Lemma merge_loop_keeps_absorbed idx sems frags i sem :
  (∃ d, sems !! i = Some d ∧ absorbs d sem) →
  ∃ d, foldl (merge_one idx) sems frags !! i = Some d ∧ absorbs d sem.
Proof.
  revert sems. induction frags as [|f frags IH]; intros sems Hd; [done|].
  simpl. by apply IH, merge_one_keeps_absorbed.
Qed.

(** After the loop every indexed fragment is absorbed by its destination. *)
Lemma merge_loop_absorbs idx sems frags n f i :
  idx_bounded idx n →
  n ≤ length sems →
  f ∈ frags →
  idx !! Semester f = Some i →
  ∃ d, foldl (merge_one idx) sems frags !! i = Some d ∧ absorbs d f.
Proof.
  intros Hidx. revert sems.
  induction frags as [|g frags IH]; intros sems Hn Hf Hi.
  - by apply elem_of_nil in Hf.
  - simpl. apply elem_of_cons in Hf as [->|Hf].
    + apply merge_loop_keeps_absorbed. unfold merge_one. rewrite Hi.
      assert (i < length sems) as Hlt by (specialize (Hidx _ _ Hi); lia).
      destruct (lookup_lt_is_Some_2 sems i Hlt) as [dest Hdest].
      rewrite Hdest. exists (merge_into dest g). split.
      * by apply list_lookup_insert_eq.
      * apply absorbs_merge_into.
    + apply IH; [|done|done]. etrans; [done|apply merge_one_length].
Qed.

(** The index map read off the list of numbers. *)
Lemma idx_by_sem_numbers sems k i :
  idx_by_sem sems !! k = Some i ↔
  (Semester <$> sems) !! i = Some k ∧
  ∀ j, i < j → (Semester <$> sems) !! j ≠ Some k.
Proof.
  rewrite idx_by_sem_Some. split.
  - intros [(s & Hs & Hk) Hlast]. split.
    + by rewrite list_lookup_fmap, Hs, <- Hk.
    + intros j Hj Hjk. rewrite list_lookup_fmap in Hjk.
      destruct (sems !! j) as [s'|] eqn:Hs'; [|done].
      injection Hjk as Hjk. by apply (Hlast j s').
  - intros [Hi Hlast]. rewrite list_lookup_fmap in Hi.
    destruct (sems !! i) as [s|] eqn:Hs; [|done]. injection Hi as Hi.
    split; [by exists s|].
    intros j s' Hj Hs' Hk. apply (Hlast j Hj).
    by rewrite list_lookup_fmap, Hs', <- Hk.
Qed.

(** [merge_semesters] on a list that already absorbed the fragments. *)
Lemma merge_loop_fixed idx sems frags :
  (∀ f, f ∈ frags →
     ∃ j d, idx !! Semester f = Some j ∧ sems !! j = Some d ∧ absorbs d f) →
  foldl (merge_one idx) sems frags = sems.
Proof.
  induction frags as [|f frags IH]; intros Habs; [done|].
  simpl. destruct (Habs f) as (j & d & Hj & Hd & Hdf); [left|].
  assert (merge_one idx sems f = sems) as ->.
  { unfold merge_one. rewrite Hj, Hd, merge_into_absorbed by done.
    by apply list_insert_id. }
  apply IH. intros f' Hf'. apply Habs. by right.
Qed.

(** Idempotence of the fragment loop: when the fragments that are new to
    the record carry pairwise distinct numbers, a second run over the same
    fragments changes nothing. *)
Lemma merge_semesters_idempotent st frags :
  NoDup (Semester <$> new_to_record (Semesters st) frags) →
  merge_semesters (merge_semesters st frags) frags = merge_semesters st frags.
Proof.
  intros Hnew.
  assert (Semesters (merge_semesters (merge_semesters st frags) frags)
          = Semesters (merge_semesters st frags)) as Hsems.
  2: { unfold merge_semesters in *. simpl in *. unfold set_Semesters. simpl.
       by rewrite Hsems. }
  unfold merge_semesters at 1. cbn [Semesters set_Semesters].
  set (sems1 := Semesters (merge_semesters st frags)).
  set (sems0 := Semesters st) in *.
  set (idx := idx_by_sem sems0).
  set (fresh := new_to_record sems0 frags) in *.
  assert (sems1 = foldl (merge_one idx) sems0 frags) as Hsems1 by done.
  assert (Semester <$> sems1 = (Semester <$> sems0) ++ (Semester <$> fresh))
    as Hnum by (rewrite Hsems1; apply merge_loop_numbers).
  assert (drop (length sems0) sems1 = fresh) as Htail.
  { rewrite Hsems1, merge_loop_tail
      by (apply idx_by_sem_bounded || done).
    by rewrite drop_all. }
  apply merge_loop_fixed. intros f Hf.
  destruct (idx !! Semester f) as [i|] eqn:Hi.
  - (* the number was in the record: same destination as in the first run *)
    destruct (merge_loop_absorbs idx sems0 frags (length sems0) f i)
      as (d & Hd & Habs); [apply idx_by_sem_bounded|done|done|done|].
    exists i, d. split_and!; [|by rewrite Hsems1|done].
    apply idx_by_sem_numbers. rewrite Hnum.
    apply idx_by_sem_numbers in Hi as [Hi Hlast].
    split; [by apply lookup_app_l_Some|].
    intros j Hj Hjk. apply lookup_app_Some in Hjk as [Hjk|[_ Hjk]].
    + by apply (Hlast j).
    + rewrite list_lookup_fmap in Hjk.
      destruct (fresh !! _) as [g|] eqn:Hg; [|done]. injection Hjk as Hjk.
      apply list_elem_of_lookup_2, list_elem_of_filter in Hg as [Hg _].
      fold idx in Hg. rewrite Hjk in Hg.
      assert (idx_by_sem sems0 !! Semester f = Some i) as Hi'
        by (apply idx_by_sem_numbers; by split).
      fold idx in Hi'. congruence.
  - (* the number was new: the destination is the fragment itself *)
    assert (f ∈ fresh) as Hfresh by (by apply list_elem_of_filter).
    apply list_elem_of_lookup in Hfresh as [p Hp].
    exists (length sems0 + p), f. split_and!; [| |apply absorbs_refl].
    + apply idx_by_sem_numbers. rewrite Hnum. split.
      * rewrite lookup_app_r by (rewrite length_fmap; lia).
        rewrite length_fmap, list_lookup_fmap.
        replace (length sems0 + p - length sems0) with p by lia.
        by rewrite Hp.
      * intros j Hj Hjk.
        rewrite lookup_app_r in Hjk by (rewrite length_fmap; lia).
        rewrite length_fmap in Hjk.
        assert ((Semester <$> fresh) !! p = Some (Semester f)) as Hpk
          by (by rewrite list_lookup_fmap, Hp).
        pose proof (NoDup_lookup _ _ _ _ Hnew Hjk Hpk). lia.
    + by rewrite <- Htail, lookup_drop in Hp.
Qed.

(** *** [ensure_student] followed by [merge_semesters] *)

Lemma ensure_student_lookup m usn name cgpa :
  is_Some (ensure_student m usn name cgpa !! usn).
Proof.
  unfold ensure_student. destruct (m !! usn); rewrite lookup_insert_eq; by eexists.
Qed.

Lemma ensure_and_merge_lookup m usn name cgpa frags :
  ∃ stu, ensure_student m usn name cgpa !! usn = Some stu ∧
         ensure_and_merge m usn name cgpa frags !! usn =
           Some (merge_semesters stu frags).
Proof.
  destruct (ensure_student_lookup m usn name cgpa) as [stu Hstu].
  exists stu. split; [done|]. unfold ensure_and_merge.
  by rewrite Hstu, lookup_insert_eq.
Qed.

(** C5: scalar fill on an existing record.  Whatever the merge brings, a
    non-empty name stays non-empty and a known CGPA stays known; an empty or
    missing name and a missing CGPA change nothing; a new CGPA always
    replaces the old one; a valid name is kept, while an empty name or the
    placeholder gives way to a new non-empty name. *)
Theorem scalar_fill_is_monotone m usn st name cgpa frags :
  m !! usn = Some st →
  ∃ st', ensure_and_merge m usn name cgpa frags !! usn = Some st' ∧
    (Name st ≠ "" → Name st' ≠ "") ∧
    (truthy name = false → Name st' = Name st) ∧
    (is_Some (CGPA st) → is_Some (CGPA st')) ∧
    (cgpa = None → CGPA st' = CGPA st) ∧
    (∀ v, cgpa = Some v → CGPA st' = Some v) ∧
    (valid_name (Name st) → Name st' = Name st) ∧
    (∀ n, name = Some n → n ≠ "" → ¬ valid_name (Name st) → Name st' = n).
Proof.
  intros Hst.
  destruct (ensure_and_merge_lookup m usn name cgpa frags) as (stu & Hstu & ->).
  eexists. split; [done|].
  unfold ensure_student in Hstu. rewrite Hst, lookup_insert_eq in Hstu.
  injection Hstu as <-.
  unfold merge_semesters, valid_name. simpl.
  destruct name as [n|]; simpl.
  - destruct (decide (n = "")) as [->|Hn];
      [rewrite bool_decide_eq_true_2 by done|rewrite bool_decide_eq_false_2 by done];
      simpl.
    + destruct cgpa; simpl; split_and!; try done; try congruence; eauto.
    + destruct (decide (Name st = "")) as [He|He];
        [rewrite (bool_decide_eq_true_2 _ He)|rewrite (bool_decide_eq_false_2 _ He)];
        simpl.
      * destruct cgpa; simpl; split_and!; try done; try congruence; eauto;
          intros; try congruence; tauto.
      * destruct (decide (Name st = "Name Not Found")) as [Hp|Hp];
          [rewrite (bool_decide_eq_true_2 _ Hp)|rewrite (bool_decide_eq_false_2 _ Hp)];
          simpl; destruct cgpa; simpl; split_and!; try done; try congruence;
          eauto; intros; try congruence; tauto.
  - destruct cgpa; simpl; split_and!; try done; try congruence; eauto.
Qed.

(** *** Fragments as objects *)

Lemma deref_cons (heap : list (SemesterObj gpa)) b refs :
  deref heap (b :: refs) =
  match heap !! b with
  | Some x => x :: deref heap refs
  | None => deref heap refs
  end.
Proof. reflexivity. Qed.

Lemma deref_lookup (heap : list (SemesterObj gpa)) (refs : list nat) i a :
  Forall (λ a, a < length heap) refs →
  refs !! i = Some a →
  deref heap refs !! i = heap !! a.
Proof.
  intros Hvalid. revert i.
  induction Hvalid as [|b refs Hb Hvalid IH]; intros i Hi; [done|].
  rewrite deref_cons.
  destruct (lookup_lt_is_Some_2 heap b Hb) as [x Hx]. rewrite Hx.
  destruct i as [|i]; simpl in *.
  - by injection Hi as <-.
  - by apply IH.
Qed.

Lemma deref_length (heap : list (SemesterObj gpa)) (refs : list nat) :
  Forall (λ a, a < length heap) refs →
  length (deref heap refs) = length refs.
Proof.
  induction 1 as [|b refs Hb Hvalid IH]; [done|].
  rewrite deref_cons.
  destruct (lookup_lt_is_Some_2 heap b Hb) as [x Hx]. rewrite Hx. simpl.
  by f_equal.
Qed.

Lemma deref_insert_other (heap : list (SemesterObj gpa)) refs d x :
  d ∉ refs → deref (<[d := x]> heap) refs = deref heap refs.
Proof.
  intros Hd. induction refs as [|b refs IH]; [done|].
  apply not_elem_of_cons in Hd as [Hne Hd].
  rewrite !deref_cons, list_lookup_insert_ne by done. by rewrite IH.
Qed.

Lemma deref_insert_at (heap : list (SemesterObj gpa)) refs i d x :
  NoDup refs →
  Forall (λ a, a < length heap) refs →
  refs !! i = Some d →
  deref (<[d := x]> heap) refs = <[i := x]> (deref heap refs).
Proof.
  intros Hnd Hvalid. revert i.
  induction Hvalid as [|b refs Hb Hvalid IH]; intros i Hi; [done|].
  apply NoDup_cons in Hnd as [Hnotin Hnd].
  destruct (lookup_lt_is_Some_2 heap b Hb) as [y Hy].
  rewrite !deref_cons.
  destruct i as [|i]; simpl in Hi.
  - injection Hi as ->.
    rewrite list_lookup_insert_eq by done. rewrite Hy. simpl. f_equal.
    by apply deref_insert_other.
  - assert (b ≠ d) as Hne.
    { intros ->. apply Hnotin. by eapply list_elem_of_lookup_2. }
    rewrite list_lookup_insert_ne by done. rewrite Hy. simpl. f_equal.
    by apply IH.
Qed.

(** The model on values is the model on objects, read through the heap,
    when no object occurs twice among the record's semesters and the
    fragments. *)
Lemma merge_loop_ref_fresh idx (heap : list (SemesterObj gpa))
    (srefs frefs : list nat) :
  NoDup (srefs ++ frefs) →
  Forall (λ a, a < length heap) (srefs ++ frefs) →
  let res := foldl (merge_one_ref idx) (heap, srefs) frefs in
  deref res.1 res.2 =
  foldl (merge_one idx) (deref heap srefs) (deref heap frefs).
Proof.
  revert heap srefs. induction frefs as [|a frefs IH]; intros heap srefs Hnd Hvalid.
  - done.
  - cbn zeta.
    pose proof Hvalid as Hvalid'.
    apply Forall_app in Hvalid' as [Hvs Hvf].
    apply Forall_cons in Hvf as [Ha Hvf].
    pose proof Hnd as Hnd'.
    apply NoDup_app in Hnd' as (Hnds & Hdisj & Hndf).
    apply NoDup_cons in Hndf as [Hafrags Hndf].
    destruct (lookup_lt_is_Some_2 heap a Ha) as [sem Hsem].
    assert (deref heap (a :: frefs) = sem :: deref heap frefs) as ->
      by (by rewrite deref_cons, Hsem).
    cbn [foldl].
    destruct (idx !! Semester sem) as [i|] eqn:Hi.
    + destruct (srefs !! i) as [d|] eqn:Hd.
      * assert (d ∈ srefs) as Hdin by (by eapply list_elem_of_lookup_2).
        assert (d < length heap) as Hdv
          by (by apply (proj1 (Forall_forall _ _) Hvs)).
        destruct (lookup_lt_is_Some_2 heap d Hdv) as [dest Hdest].
        assert (merge_one_ref idx (heap, srefs) a
                = (<[d := merge_into dest sem]> heap, srefs)) as ->.
        { unfold merge_one_ref. cbn [fst snd]. by rewrite Hsem, Hi, Hd, Hdest. }
        assert (merge_one idx (deref heap srefs) sem
                = <[i := merge_into dest sem]> (deref heap srefs)) as ->.
        { unfold merge_one.
          by rewrite Hi, (deref_lookup _ _ _ _ Hvs Hd), Hdest. }
        specialize (IH (<[d := merge_into dest sem]> heap) srefs).
        cbn zeta in IH. rewrite IH.
        -- rewrite (deref_insert_at _ _ _ _ _ Hnds Hvs Hd).
           rewrite deref_insert_other; [done|].
           intros Hdf. apply (Hdisj d Hdin). by right.
        -- apply NoDup_app. split_and!; [done| |done].
           intros x Hx Hxf. apply (Hdisj x Hx). by right.
        -- rewrite length_insert. apply Forall_app. by split.
      * assert (merge_one_ref idx (heap, srefs) a = (heap, srefs)) as ->.
        { unfold merge_one_ref. cbn [fst snd]. by rewrite Hsem, Hi, Hd. }
        assert (merge_one idx (deref heap srefs) sem = deref heap srefs) as ->.
        { unfold merge_one. rewrite Hi.
          assert (deref heap srefs !! i = None) as ->; [|done].
          apply lookup_ge_None. rewrite deref_length by done.
          by apply lookup_ge_None. }
        apply IH.
        -- apply NoDup_app. split_and!; [done| |done].
           intros x Hx Hxf. apply (Hdisj x Hx). by right.
        -- apply Forall_app. by split.
    + assert (merge_one_ref idx (heap, srefs) a = (heap, srefs ++ [a])) as ->.
      { unfold merge_one_ref. cbn [fst snd]. by rewrite Hsem, Hi. }
      assert (merge_one idx (deref heap srefs) sem = deref heap srefs ++ [sem])
        as -> by (unfold merge_one; by rewrite Hi).
      specialize (IH heap (srefs ++ [a])). cbn zeta in IH. rewrite IH.
      * unfold deref at 1. rewrite omap_app. simpl. by rewrite Hsem.
      * by rewrite <- app_assoc.
      * by rewrite <- app_assoc.
Qed.

Lemma merge_semesters_ref_fresh (heap : list (SemesterObj gpa))
    (srefs frefs : list nat) st :
  NoDup (srefs ++ frefs) →
  Forall (λ a, a < length heap) (srefs ++ frefs) →
  Semesters st = deref heap srefs →
  let res := merge_semesters_ref heap srefs frefs in
  deref res.1 res.2 = Semesters (merge_semesters st (deref heap frefs)).
Proof.
  intros Hnd Hvalid Hst. cbn zeta. unfold merge_semesters_ref, merge_semesters.
  cbn [Semesters set_Semesters]. rewrite Hst.
  by apply merge_loop_ref_fresh.
Qed.

(** *** Merging the same fragment set again *)

Lemma set_Name_same st : set_Name (Name st) st = st.
Proof. by destruct st. Qed.

Lemma set_CGPA_same st : set_CGPA (CGPA st) st = st.
Proof. by destruct st. Qed.

(** The scalar part of [ensure_student] leaves its own result alone. *)
Lemma ensure_student_again m usn name cgpa stu frags :
  ensure_student m usn name cgpa !! usn = Some stu →
  ensure_student (<[usn := merge_semesters stu frags]>
                    (ensure_student m usn name cgpa)) usn name cgpa
  = <[usn := merge_semesters stu frags]> (ensure_student m usn name cgpa).
Proof.
  intros Hstu. set (x := merge_semesters stu frags).
  assert (Name x = Name stu ∧ CGPA x = CGPA stu) as [Hname Hcgpa] by done.
  unfold ensure_student at 1. rewrite lookup_insert_eq.
  rewrite insert_insert_eq. f_equal.
  assert ((if truthy name &&
              (bool_decide (Name x = "") || bool_decide (Name x = "Name Not Found"))
           then set_Name (name_or_empty name) x else x) = x) as ->.
  { destruct (truthy name &&
              (bool_decide (Name x = "") || bool_decide (Name x = "Name Not Found")))
      eqn:Hcond; [|done].
    rewrite <- (set_Name_same x) at 2. f_equal. rewrite Hname.
    rewrite Hname in Hcond. clear Hname Hcgpa x.
    unfold ensure_student in Hstu. destruct (m !! usn) as [st0|].
    - rewrite lookup_insert_eq in Hstu. injection Hstu as <-.
      destruct (truthy name &&
                (bool_decide (Name st0 = "") ||
                 bool_decide (Name st0 = "Name Not Found"))) eqn:Hcond0.
      + by destruct cgpa.
      + exfalso. destruct cgpa; simpl in Hcond; congruence.
    - rewrite lookup_insert_eq in Hstu. by injection Hstu as <-. }
  destruct cgpa as [v|]; [|done].
  rewrite <- (set_CGPA_same x) at 2. f_equal. rewrite Hcgpa. clear Hname Hcgpa x.
  unfold ensure_student in Hstu. destruct (m !! usn) as [st0|].
  - rewrite lookup_insert_eq in Hstu. by injection Hstu as <-.
  - rewrite lookup_insert_eq in Hstu. by injection Hstu as <-.
Qed.

Lemma ensure_student_Semesters m usn name cgpa stu :
  ensure_student m usn name cgpa !! usn = Some stu →
  Semesters stu = stored_semesters m usn.
Proof.
  unfold ensure_student, stored_semesters.
  destruct (m !! usn) as [st0|]; rewrite lookup_insert_eq; intros [= <-];
    simpl; [|done].
  by destruct (truthy name && _), cgpa.
Qed.

(** X5: idempotence of the merge, where it holds: when the fragments whose
    number is new to the record carry pairwise distinct numbers, merging the
    same name, CGPA and fragments a second time changes nothing. *)
Theorem merge_is_idempotent_on_distinct_new_numbers m usn name cgpa frags :
  NoDup (Semester <$> new_to_record (stored_semesters m usn) frags) →
  ensure_and_merge (ensure_and_merge m usn name cgpa frags) usn name cgpa frags
  = ensure_and_merge m usn name cgpa frags.
Proof.
  intros Hnew.
  destruct (ensure_student_lookup m usn name cgpa) as [stu Hstu].
  rewrite <- (ensure_student_Semesters _ _ _ _ _ Hstu) in Hnew.
  assert (ensure_and_merge m usn name cgpa frags
          = <[usn := merge_semesters stu frags]> (ensure_student m usn name cgpa))
    as -> by (unfold ensure_and_merge; by rewrite Hstu).
  unfold ensure_and_merge.
  rewrite (ensure_student_again _ _ _ _ _ _ Hstu), lookup_insert_eq.
  by rewrite insert_insert_eq, merge_semesters_idempotent.
Qed.

End MergeFacts.

Section TrackFacts.

Context {gpa : Type}.

Implicit Types (o : Outcome gpa) (os : list (Outcome gpa)) (r : Result gpa).
Implicit Types (m : gmap string (StudentObj gpa)).
Implicit Types (g : GoBackScript) (back : nat → GoBackScript).

(** *** The recovery call *)

Lemma recover_or_unfold {A} g (raised : A) (k : Logged A) :
  recover_or g raised k =
  if raises g then (raised, (recover g).2)
  else (k.1, (recover g).2 ++ k.2).
Proof.
  unfold recover_or, raises, recover. cbn zeta.
  destruct (go_back_to_usn_entry_keep_session g) as [[b|] steps];
    unfold mbind, mret, logged_bind, logged_ret; cbn [fst snd].
  - done.
  - by rewrite app_nil_r.
Qed.

Lemma recover_then {A} g (k : Logged A) :
  (recover g ;; k) = (k.1, (recover g).2 ++ k.2).
Proof. done. Qed.

(** *** The log *)

Lemma processed_app (l1 l2 : list Action) :
  processed (l1 ++ l2) = processed l1 ++ processed l2.
Proof. apply omap_app. Qed.

Lemma processed_recover g : processed (recover g).2 = [].
Proof.
  unfold recover, processed. cbn [snd omap list_omap].
  induction (go_back_to_usn_entry_keep_session g).2 as [|step steps IH];
    [done|exact IH].
Qed.

Lemma processed_process usn (log : list Action) :
  processed (ActProcess usn :: log) = usn :: processed log.
Proof. done. Qed.

Lemma processed_iteration usn g (log : list Action) :
  processed (ActProcess usn :: (recover g).2 ++ log) = usn :: processed log.
Proof.
  change (ActProcess usn :: (recover g).2 ++ log)
    with ([ActProcess usn] ++ (recover g).2 ++ log).
  by rewrite !processed_app, processed_recover.
Qed.

(** *** The trailing run *)




(** *** The loop, iteration by iteration *)

Lemma track_loop_raised threshold year branch back os consec roll m :
  track_loop threshold year branch back (Raised :: os) consec roll m =
  let res := track_loop threshold year branch back os consec (S roll) m in
  (res.1,
   ActProcess (usn_of year branch roll) :: (recover (back roll)).2 ++ res.2).
Proof. done. Qed.

Lemma track_loop_present threshold year branch back r os consec roll m :
  res_found r = true →
  track_loop threshold year branch back (Returned r :: os) consec roll m =
  let usn := usn_of year branch roll in
  let res := track_loop threshold year branch back os 0 (S roll)
               (ensure_and_merge m usn (res_name r) (res_cgpa r)
                                 (res_semesters r)) in
  (res.1, ActProcess usn :: res.2).
Proof. intros Hr. cbn [track_loop]. by rewrite Hr. Qed.

Lemma track_loop_absent_abort threshold year branch back r os consec roll m :
  res_found r = false →
  raises (back roll) = true →
  track_loop threshold year branch back (Returned r :: os) consec roll m =
  (mkLoop LoopAborted (S consec) roll m os,
   ActProcess (usn_of year branch roll) :: (recover (back roll)).2).
Proof.
  intros Hr Hraise. cbn [track_loop]. rewrite Hr. cbn [negb]. cbn zeta.
  rewrite !recover_or_unfold, Hraise. by case_bool_decide.
Qed.

Lemma track_loop_absent_stop threshold year branch back r os consec roll m :
  res_found r = false →
  raises (back roll) = false →
  threshold ≤ S consec →
  track_loop threshold year branch back (Returned r :: os) consec roll m =
  (mkLoop LoopStopped (S consec) roll m os,
   ActProcess (usn_of year branch roll) :: (recover (back roll)).2).
Proof.
  intros Hr Hraise Hle. cbn [track_loop]. rewrite Hr. cbn [negb]. cbn zeta.
  rewrite bool_decide_eq_true_2 by done.
  rewrite recover_or_unfold, Hraise.
  unfold mbind, mret, logged_bind, logged_ret, tell. cbn [fst snd].
  by rewrite app_nil_r.
Qed.

Lemma track_loop_absent_go threshold year branch back r os consec roll m :
  res_found r = false →
  raises (back roll) = false →
  S consec < threshold →
  track_loop threshold year branch back (Returned r :: os) consec roll m =
  let res := track_loop threshold year branch back os (S consec) (S roll) m in
  (res.1,
   ActProcess (usn_of year branch roll) :: (recover (back roll)).2 ++ res.2).
Proof.
  intros Hr Hraise Hlt. cbn [track_loop]. rewrite Hr. cbn [negb]. cbn zeta.
  rewrite bool_decide_eq_false_2 by lia.
  by rewrite recover_or_unfold, Hraise.
Qed.


(** *** The stopping rule *)



(** *** The first identifier *)

(** X7: the plan starts at the identifier that was submitted by hand, so
    when both submissions find it, its fragments are merged twice: once
    after the manual submit, once by the first iteration of the first
    track, which then goes on with the next roll number. *)
Lemma first_identifier_is_merged_twice (view : ScrapeScript gpa) g back r os :
  (scrape_current_usn_view_structured view).1 = Returned r →
  res_found r = true →
  let m1 := (first_manual IndCards view g ∅).1.2 in
  (first_manual IndCards view g ∅).1.1 = true ∧
  m1 = ensure_and_merge ∅ first_usn (res_name r) (res_cgpa r)
                        (res_semesters r) ∧
  (normal_track "21" "AD" back (Returned r :: os) m1).1 =
    (track_loop MAX_CONSEC_OOPS "21" "AD" back os 0 (S ROLL_START)
       (ensure_and_merge m1 first_usn (res_name r) (res_cgpa r)
                         (res_semesters r))).1.
Proof.
  intros Hr Hfound. cbn zeta.
  assert ((first_manual IndCards view g ∅).1
          = (true, ensure_and_merge ∅ first_usn (res_name r) (res_cgpa r)
                                    (res_semesters r))) as ->.
  { unfold first_manual.
    destruct (scrape_current_usn_view_structured view) as [o l] eqn:E.
    simpl in Hr. subst o.
    unfold mbind, mret, logged_bind, logged_ret, tell. cbn [fst snd].
    by rewrite Hfound. }
  split_and!; [done|done|].
  unfold normal_track. by rewrite track_loop_present.
Qed.

(** *** Exceptions *)

(** The exceptions the code itself lets escape before anything is
    submitted: the entry field is not there, and the recovery raises or
    the field is still not there after it (lines 365-366). *)
Lemma submit_raises_when_entry_missing (s : SubmitScript gpa) usn :
  sb_usn_ready s = false →
  raises (sb_recover s) = true ∨ sb_usn_ready_after_back s = false →
  submit_and_collect_usn s usn = (Raised, (recover (sb_recover s)).2).
Proof.
  intros H1 H2. unfold submit_and_collect_usn, submit_with, ensure_on_usn_page.
  rewrite H1, recover_or_unfold.
  destruct (raises (sb_recover s)).
  - unfold mbind, mret, logged_bind, logged_ret. cbn [fst snd negb].
    by rewrite !app_nil_r.
  - destruct H2 as [?|H2]; [done|]. rewrite H2.
    unfold mbind, mret, logged_bind, logged_ret. cbn [fst snd negb].
    by rewrite !app_nil_r.
Qed.

(** What the recovery call does, whatever the caller makes of it: it
    starts with a step back in the history, and the entry field is found
    exactly when one of the ways back finds it. *)
Lemma go_back_reaches_entry g :
  (∃ more, (go_back_to_usn_entry_keep_session g).2 = NavBack :: more) ∧
  ((go_back_to_usn_entry_keep_session g).1 = Some true ↔
     gb_back g 0 = BackOk ∨
     (gb_back g 0 = BackTimeout ∧
      (gb_back g 1 = BackOk ∨
       (gb_back g 1 = BackTimeout ∧
        (gb_link g = true ∨ gb_reload g = true))))).
Proof.
  unfold go_back_to_usn_entry_keep_session. cbn [seq back_loop].
  destruct (gb_back g 0) eqn:H0, (gb_back g 1) eqn:H1,
    (gb_link g) eqn:Hl, (gb_reload g) eqn:Hr; cbn;
    (split; [by eexists|]); split; intros;
    try done; try (destruct_or?; destruct_and?; destruct_or?;
                   destruct_and?; destruct_or?; done); auto 8.
Qed.

(** Exceptions in a row: the loop is where it would be had it started
    after them. *)
Lemma track_loop_raised_run threshold year branch back n os consec roll m :
  (track_loop threshold year branch back (replicate n Raised ++ os)
              consec roll m).1 =
  (track_loop threshold year branch back os consec (roll + n) m).1.
Proof.
  revert roll. induction n as [|n IH]; intros roll.
  - by rewrite Nat.add_0_r.
  - cbn [replicate app]. rewrite track_loop_raised. cbn zeta. cbn [fst].
    rewrite IH. by replace (S roll + n) with (roll + S n) by lia.
Qed.

(** The loop is ended by an exception only where a recovery call made
    after a not-found result raises. *)
Lemma track_loop_aborted threshold year branch back os consec roll m :
  ls_status (track_loop threshold year branch back os consec roll m).1
    = LoopAborted →
  ∃ n, absent_at os n ∧ raises (back (roll + n)) = true.
Proof.
  revert consec roll m.
  induction os as [|o os IH]; intros consec roll m Hst; [done|].
  assert (∀ consec' m',
            ls_status (track_loop threshold year branch back os consec'
                                  (S roll) m').1 = LoopAborted →
            ∃ n, absent_at (o :: os) n ∧ raises (back (roll + n)) = true)
    as Hnext.
  { intros consec' m' Hst'. destruct (IH _ _ _ Hst') as (n & Habs & Hraise).
    exists (S n). split; [exact Habs|].
    by replace (roll + S n) with (S roll + n) by lia. }
  destruct o as [|r].
  - rewrite track_loop_raised in Hst. by eapply Hnext.
  - destruct (res_found r) eqn:Hr.
    + rewrite track_loop_present in Hst by done. by eapply Hnext.
    + destruct (raises (back roll)) eqn:Hraise.
      * exists 0. rewrite Nat.add_0_r. split; [by exists r|done].
      * destruct (decide (threshold ≤ S consec)).
        -- by rewrite track_loop_absent_stop in Hst by done.
        -- rewrite track_loop_absent_go in Hst by (done || lia).
           by eapply Hnext.
Qed.

(** C9 (amended): an exception out of the call for one identifier does not
    end the loop.  The recovery to the entry page is called, starting with
    a step back in the history; it finds the entry field exactly when one
    of its ways back does; whatever it does, also when it returns [False]
    and when it raises, the counter and the aggregate are what they were,
    and the loop goes on with the next roll number exactly as if it had
    started there.  So it is after any number of such exceptions in a
    row.  The loop is ended by an exception only at an identifier whose
    call returned a not-found result and whose recovery call raised. *)
Theorem exception_abandons_identifier threshold year branch back os
    consec roll m :
  let g := back roll in
  let steps := (go_back_to_usn_entry_keep_session g).2 in
  let res := track_loop threshold year branch back (Raised :: os) consec roll m in
  let next := track_loop threshold year branch back os consec (S roll) m in
  res.1 = next.1 ∧
  (∀ n, (track_loop threshold year branch back (replicate n Raised ++ os)
                    consec roll m).1 =
        (track_loop threshold year branch back os consec (roll + n) m).1) ∧
  (∀ n, track_loop threshold year branch back (replicate n Raised)
                   consec roll m =
        (mkLoop LoopPending consec (roll + n) m [],
         (track_loop threshold year branch back (replicate n Raised)
                     consec roll m).2)) ∧
  (ls_status res.1 = LoopAborted →
   ∃ n, absent_at os n ∧ raises (back (S roll + n)) = true) ∧
  res.2 = ActProcess (usn_of year branch roll) :: ActRecoverEntry ::
            (ActNav <$> steps) ++ next.2 ∧
  (∃ more, steps = NavBack :: more) ∧
  ((go_back_to_usn_entry_keep_session g).1 = Some true ↔
     gb_back g 0 = BackOk ∨
     (gb_back g 0 = BackTimeout ∧
      (gb_back g 1 = BackOk ∨
       (gb_back g 1 = BackTimeout ∧
        (gb_link g = true ∨ gb_reload g = true))))) ∧
  track_loop threshold year branch back [Raised] consec roll m =
    (mkLoop LoopPending consec (S roll) m [],
     ActProcess (usn_of year branch roll) :: ActRecoverEntry ::
       (ActNav <$> steps)).
Proof.
  cbn zeta.
  destruct (go_back_reaches_entry (back roll)) as [Hfirst Hentry].
  split_and!; [done| | | |done|done|done|].
  - intros n. apply track_loop_raised_run.
  - intros n.
    pose proof (track_loop_raised_run threshold year branch back n []
                  consec roll m) as Hrun.
    rewrite app_nil_r in Hrun.
    destruct (track_loop threshold year branch back (replicate n Raised)
                         consec roll m) as [st log].
    cbn [fst snd] in *. by rewrite Hrun.
  - rewrite track_loop_raised. cbn zeta. cbn [fst].
    apply track_loop_aborted.
  - rewrite track_loop_raised. cbn [track_loop].
    unfold mret, logged_ret, recover. cbn [fst snd].
    by rewrite app_nil_r.
Qed.

End TrackFacts.

Section ExtractorFacts.

Context {gpa : Type}.

Implicit Types (v : CardVisit gpa) (visits : list (CardVisit gpa)).
Implicit Types (sems : list (SemesterObj gpa)) (cgpa : option gpa).
Implicit Types (s : ScrapeScript gpa).

(** *** The cards loop *)

(** The first visit of the loop, with the log written out. *)
Lemma cards_loop_cons idx v rest sems cgpa :
  cards_loop idx (v :: rest) sems cgpa =
  if bool_decide (cv_cards_now v ≤ idx) then (Some (sems, cgpa), [])
  else
    let next := cards_loop (S idx) rest sems cgpa in
    let back := (recover (cv_recover v)).2 in
    if negb (cv_view_btn v) then next
    else if negb (cv_click_ok v) then (next.1, ActClickView idx :: next.2)
    else if bool_decide (cv_indicator v = IndOops) then
      if raises (cv_recover v)
      then (None, ActClickView idx :: ActWait 10 :: back)
      else (next.1, ActClickView idx :: ActWait 10 :: back ++ next.2)
    else
      let acc := collect_page (cv_page v) sems cgpa in
      if cv_back_ok v then
        let after := cards_loop (S idx) rest acc.1 acc.2 in
        (after.1, ActClickView idx :: ActWait 10 :: ActBack :: after.2)
      else if raises (cv_recover v)
      then (None, ActClickView idx :: ActWait 10 :: ActBack :: back)
      else (Some acc, ActClickView idx :: ActWait 10 :: ActBack :: back).
Proof.
  cbn [cards_loop]. case_bool_decide; [done|]. cbn zeta.
  destruct (cv_view_btn v); cbn [negb]; [|done].
  destruct (cv_click_ok v); cbn [negb];
    [|by destruct (cards_loop (S idx) rest _ _)].
  destruct (cv_indicator v); rewrite ?recover_or_unfold;
    try (rewrite bool_decide_eq_true_2 by done);
    try (rewrite bool_decide_eq_false_2 by done);
    try destruct (cv_back_ok v);
    rewrite ?recover_or_unfold;
    try destruct (raises (cv_recover v));
    try destruct (cards_loop (S idx) rest _ _);
    unfold mbind, mret, logged_bind, logged_ret, tell; cbn [fst snd app];
    by rewrite ?app_nil_r.
Qed.





(** *** The extractor *)

Lemma leave_with_unfold s (acc : list (SemesterObj gpa) * option gpa) :
  leave_with s acc =
  (if raises (ss_recover s) then Raised
   else Returned (bool_decide (0 < length acc.1), Some (ss_name s),
                  acc.2, acc.1),
   (recover (ss_recover s)).2).
Proof.
  unfold leave_with. rewrite recover_or_unfold.
  destruct (raises (ss_recover s)); [done|].
  unfold mret, logged_ret. cbn [fst snd]. by rewrite app_nil_r.
Qed.

Lemma scrape_cards s :
  ss_oops s = false →
  ss_visits s ≠ [] →
  scrape_current_usn_view_structured s =
  let r := cards_loop 0 (ss_visits s) [] None in
  match r.1 with
  | None => (Raised, r.2)
  | Some acc => ((leave_with s acc).1, r.2 ++ (recover (ss_recover s)).2)
  end.
Proof.
  intros Hoops Hcards. unfold scrape_current_usn_view_structured.
  rewrite Hoops. destruct (ss_visits s) as [|v visits]; [done|].
  cbn zeta.
  destruct (cards_loop 0 (v :: visits) [] None) as [[acc|] log].
  - unfold mbind, logged_bind. cbn [fst snd]. by rewrite leave_with_unfold.
  - unfold mbind, mret, logged_bind, logged_ret. cbn [fst snd].
    by rewrite app_nil_r.
Qed.

Lemma scrape_direct s :
  ss_oops s = false →
  ss_visits s = [] →
  scrape_current_usn_view_structured s =
  if ss_direct_present s then
    leave_with s (collect_page (ss_direct_page s) [] None)
  else (Returned (false, Some (ss_name s), None, []), []).
Proof.
  intros Hoops Hcards. unfold scrape_current_usn_view_structured.
  by rewrite Hoops, Hcards.
Qed.



End ExtractorFacts.

Section SubmitFacts.

Context {gpa : Type}.

Implicit Types (s : SubmitScript gpa) (log pre post tail : list Action).

(** *** Counting in the log *)

Lemma count_if_app f log1 log2 :
  count_if f (log1 ++ log2) = count_if f log1 + count_if f log2.
Proof. unfold count_if. by rewrite filter_app, length_app. Qed.

Lemma count_if_cons f a log :
  count_if f (a :: log) = (if f a then 1 else 0) + count_if f log.
Proof.
  unfold count_if. rewrite filter_cons.
  destruct (f a); by case_decide.
Qed.

Lemma count_if_none f log :
  Forall (λ a, f a = false) log → count_if f log = 0.
Proof.
  induction 1 as [|a log Ha _ IH]; [done|].
  by rewrite count_if_cons, Ha, IH.
Qed.

Lemma count_if_view f log :
  (∀ a, is_view_action a = true → f a = false) →
  Forall (λ a, is_view_action a = true) log →
  count_if f log = 0.
Proof.
  intros Hf Hlog. apply count_if_none. eapply Forall_impl; [exact Hlog|].
  exact Hf.
Qed.

Lemma count_nat_S (f : nat → bool) a n :
  count_nat f a (S n) = (if f a then 1 else 0) + count_nat f (S a) n.
Proof.
  unfold count_nat. cbn [seq]. rewrite filter_cons.
  destruct (f a); by case_decide.
Qed.

(** *** What the extractor does to the browser *)

Lemma recover_view_actions g :
  Forall (λ a, is_view_action a = true) (recover g).2.
Proof.
  unfold recover. cbn [snd]. apply Forall_cons. split; [done|].
  apply Forall_fmap. by apply Forall_true.
Qed.

Lemma cards_loop_view_actions idx (visits : list (CardVisit gpa)) sems cgpa :
  Forall (λ a, is_view_action a = true) (cards_loop idx visits sems cgpa).2.
Proof.
  revert idx sems cgpa. induction visits as [|v rest IH]; intros idx sems cgpa.
  - apply Forall_nil_2.
  - pose proof (recover_view_actions (cv_recover v)) as Hback.
    rewrite cards_loop_cons. case_bool_decide; [apply Forall_nil_2|]. cbn zeta.
    destruct (cv_view_btn v); cbn [negb]; [|apply IH].
    destruct (cv_click_ok v); cbn [negb snd].
    2: { apply Forall_cons. split; [done|apply IH]. }
    case_bool_decide.
    { destruct (raises (cv_recover v)); cbn [snd];
        do 2 (apply Forall_cons; split; [done|]); [done|].
      apply Forall_app. split; [done|apply IH]. }
    destruct (cv_back_ok v); [|destruct (raises (cv_recover v))]; cbn [snd];
      do 3 (apply Forall_cons; split; [done|]); [apply IH|done|done].
Qed.

Lemma scrape_view_actions (v : ScrapeScript gpa) :
  Forall (λ a, is_view_action a = true)
         (scrape_current_usn_view_structured v).2.
Proof.
  pose proof (recover_view_actions (ss_recover v)) as Hback.
  destruct (ss_oops v) eqn:Hoops.
  { unfold scrape_current_usn_view_structured. rewrite Hoops.
    apply Forall_nil_2. }
  destruct (decide (ss_visits v = [])) as [Hnil|Hcons].
  - rewrite scrape_direct by done.
    destruct (ss_direct_present v); [|apply Forall_nil_2].
    by rewrite leave_with_unfold.
  - rewrite scrape_cards by done. cbn zeta.
    pose proof (cards_loop_view_actions 0 (ss_visits v) [] None) as Hcards.
    destruct (cards_loop 0 (ss_visits v) [] None).1; cbn [snd]; [|done].
    apply Forall_app. by split.
Qed.

(** The extractor neither submits, nor re-submits, nor prompts. *)
Lemma scrape_quiet f (v : ScrapeScript gpa) :
  (∀ a, is_view_action a = true → f a = false) →
  count_if f (scrape_current_usn_view_structured v).2 = 0.
Proof. intros Hf. apply count_if_view; [done|apply scrape_view_actions]. Qed.

Lemma recover_quiet f g :
  (∀ a, is_view_action a = true → f a = false) →
  count_if f (recover g).2 = 0.
Proof. intros Hf. apply count_if_view; [done|apply recover_view_actions]. Qed.

(** *** The retry loop *)

(** One attempt, with the log written out. *)
Lemma retry_loop_cons retries s usn attempt rest :
  retry_loop retries s usn (attempt :: rest) =
  match sb_wait s attempt with
  | IndOops => (Returned not_found, [ActWait 12])
  | IndCards | IndTable =>
      let r := scrape_current_usn_view_structured (sb_view s) in
      (r.1, ActWait 12 :: r.2)
  | IndTimeout =>
      if bool_decide (attempt < retries) then
        let r := retry_loop retries s usn rest in
        (r.1, ActWait 12 :: ActRefill usn ::
              (if resubmitted s attempt then [ActResubmit usn] else []) ++
              (if sb_retry_captcha s attempt
               then [ActInput PromptCaptchaRetry] else []) ++ r.2)
      else
        if shows_result (sb_long_wait s) then
          let r := scrape_current_usn_view_structured (sb_view s) in
          (r.1, ActWait 12 :: ActInput PromptRetriesExhausted ::
                ActWait 30 :: r.2)
        else
          (Returned not_found,
           [ActWait 12; ActInput PromptRetriesExhausted; ActWait 30])
  end.
Proof.
  cbn [retry_loop]. destruct (sb_wait s attempt).
  - reflexivity.
  - destruct (scrape_current_usn_view_structured (sb_view s)); reflexivity.
  - destruct (scrape_current_usn_view_structured (sb_view s)); reflexivity.
  - case_bool_decide.
    + destruct (resubmitted s attempt), (sb_retry_captcha s attempt);
        destruct (retry_loop retries s usn rest); reflexivity.
    + destruct (sb_long_wait s); try reflexivity;
        destruct (scrape_current_usn_view_structured (sb_view s)); reflexivity.
Qed.

(** How a run of the loop over the attempts [a, a+1, ..., retries] looks:
    either some wait was answered and no escalation prompt was issued, or
    every wait timed out, one refill was tried after each wait but the
    last, then the one escalation prompt was issued, and nothing but
    driver reads came after it. *)
Lemma retry_loop_shape retries s usn n a :
  a + n = retries + 1 →
  1 ≤ n →
  let run := retry_loop retries s usn (seq a n) in
  (count_escalations run.2 = 0 ∧
   ∃ k, a ≤ k ≤ retries ∧ sb_wait s k ≠ IndTimeout)
  ∨
  (∃ pre tail,
     run.2 = pre ++ ActInput PromptRetriesExhausted :: tail ∧
     count_escalations pre = 0 ∧
     count_refills pre = retries - a ∧
     count_resubmits pre = count_nat (resubmitted s) a (retries - a) ∧
     count_prompts PromptClickGo pre = 0 ∧
     count_prompts PromptCaptcha pre = 0 ∧
     count_prompts PromptCaptchaRetry pre =
       count_nat (sb_retry_captcha s) a (retries - a) ∧
     count_inputs pre = count_nat (sb_retry_captcha s) a (retries - a) ∧
     count_escalations tail = 0 ∧
     count_refills tail = 0 ∧
     count_resubmits tail = 0 ∧
     count_inputs tail = 0 ∧
     (∀ k, a ≤ k ≤ retries → sb_wait s k = IndTimeout) ∧
     (sb_long_wait s = IndTimeout → run.1 = Returned not_found)).
Proof.
  revert a. induction n as [|n IH]; intros a Hsum Hn; [lia|].
  unfold count_resubmits, count_refills, count_inputs, count_prompts,
    count_escalations in *.
  cbn [seq]. cbn zeta. rewrite retry_loop_cons.
  destruct (sb_wait s a) eqn:Hwait.
  - left. split; [done|]. exists a. split; [lia|congruence].
  - left. cbn zeta. cbn [snd]. split.
    + rewrite count_if_cons, scrape_quiet by (by intros []). done.
    + exists a. split; [lia|congruence].
  - left. cbn zeta. cbn [snd]. split.
    + rewrite count_if_cons, scrape_quiet by (by intros []). done.
    + exists a. split; [lia|congruence].
  - case_bool_decide as Hlt.
    + destruct (IH (S a))
        as [(Hesc & k & Hk & Hans)
           |(pre & tail & Hlog & Hpre & Hrf & Hre & Hp1 & Hp2 & Hp3 & Hin
               & Ht1 & Ht2 & Ht3 & Ht4 & Hall & Hnf)];
        [lia|lia| |].
      * left. cbn zeta. cbn [snd]. split.
        -- rewrite !count_if_cons, !count_if_app, Hesc.
           by destruct (resubmitted s a), (sb_retry_captcha s a).
        -- exists k. split; [lia|done].
      * right. cbn zeta. cbn [fst snd].
        exists (ActWait 12 :: ActRefill usn ::
                (if resubmitted s a then [ActResubmit usn] else []) ++
                (if sb_retry_captcha s a
                 then [ActInput PromptCaptchaRetry] else []) ++ pre), tail.
        replace (retries - a) with (S (retries - S a)) by lia.
        rewrite !count_nat_S.
        split_and!; try done.
        -- rewrite Hlog. by rewrite !app_comm_cons, !app_assoc.
        -- rewrite !count_if_cons, !count_if_app, Hpre.
           by destruct (resubmitted s a), (sb_retry_captcha s a).
        -- rewrite !count_if_cons, !count_if_app, Hrf.
           by destruct (resubmitted s a), (sb_retry_captcha s a).
        -- rewrite !count_if_cons, !count_if_app, Hre.
           by destruct (resubmitted s a), (sb_retry_captcha s a).
        -- rewrite !count_if_cons, !count_if_app, Hp1.
           by destruct (resubmitted s a), (sb_retry_captcha s a).
        -- rewrite !count_if_cons, !count_if_app, Hp2.
           by destruct (resubmitted s a), (sb_retry_captcha s a).
        -- rewrite !count_if_cons, !count_if_app, Hp3.
           by destruct (resubmitted s a), (sb_retry_captcha s a).
        -- rewrite !count_if_cons, !count_if_app, Hin.
           by destruct (resubmitted s a), (sb_retry_captcha s a).
        -- intros k Hk. destruct (decide (k = a)) as [->|]; [done|].
           apply Hall. lia.
    + assert (a = retries) as -> by lia.
      right. exists [ActWait 12]. rewrite Nat.sub_diag.
      destruct (shows_result (sb_long_wait s)) eqn:Hlong.
      * cbn zeta. cbn [fst snd]. eexists. split_and!; try done.
        -- rewrite count_if_cons, scrape_quiet by (by intros []). done.
        -- rewrite count_if_cons, scrape_quiet by (by intros []). done.
        -- rewrite count_if_cons, scrape_quiet by (by intros []). done.
        -- rewrite count_if_cons, scrape_quiet by (by intros []). done.
        -- intros k Hk. by replace k with retries by lia.
        -- intros Hto. by rewrite Hto in Hlong.
      * cbn [fst snd]. eexists. split_and!; try done.
        intros k Hk. by replace k with retries by lia.
Qed.

(** A result is reported as found only when some wait showed result
    cards or a result table. *)
Lemma retry_loop_found_needs_result retries s usn attempts r :
  (retry_loop retries s usn attempts).1 = Returned r →
  res_found r = true →
  (∃ k, k ∈ attempts ∧ shows_result (sb_wait s k) = true) ∨
  shows_result (sb_long_wait s) = true.
Proof.
  induction attempts as [|a rest IH]; [by intros [= <-]|].
  rewrite retry_loop_cons. destruct (sb_wait s a) eqn:Hwait.
  - by intros [= <-].
  - intros _ _. left. exists a. rewrite Hwait. split; [left|done].
  - intros _ _. left. exists a. rewrite Hwait. split; [left|done].
  - case_bool_decide.
    + cbn zeta. cbn [fst]. intros Hres Hfound.
      destruct (IH Hres Hfound) as [(k & Hk & Hshow)|Hlong]; [|by right].
      left. exists k. split; [by right|done].
    + destruct (shows_result (sb_long_wait s)); [by right|].
      by intros [= <-].
Qed.

(** *** The whole submission *)

Lemma ensure_on_usn_page_log s :
  (ensure_on_usn_page s).2 =
    (if sb_usn_ready s then [] else (recover (sb_recover s)).2) ∧
  ((ensure_on_usn_page s).1 = true ↔
     sb_usn_ready s = true ∨
     (raises (sb_recover s) = false ∧ sb_usn_ready_after_back s = true)).
Proof.
  unfold ensure_on_usn_page. destruct (sb_usn_ready s); [by split; [|split; auto]|].
  rewrite recover_or_unfold.
  destruct (raises (sb_recover s)); cbn [fst snd].
  - split; [done|]. split; [done|]. by intros [?|[? _]].
  - unfold mret, logged_ret. cbn [fst snd]. rewrite app_nil_r.
    split; [done|]. split; [by right|]. by intros [?|[_ ?]].
Qed.

Lemma ensure_on_usn_page_quiet f s :
  (∀ a, is_view_action a = true → f a = false) →
  count_if f (ensure_on_usn_page s).2 = 0.
Proof.
  intros Hf. rewrite (proj1 (ensure_on_usn_page_log s)).
  destruct (sb_usn_ready s); [done|]. by apply recover_quiet.
Qed.

(** [submit_with], with the log written out. *)
Lemma submit_with_unfold retries s usn :
  submit_with retries s usn =
  let entry := ensure_on_usn_page s in
  if negb entry.1 then (Raised, entry.2)
  else if negb (sb_field_found s) then (Returned not_found, entry.2)
  else if negb (sb_fill_ok s) then (Raised, entry.2)
  else
    let r := retry_loop retries s usn (seq 0 (retries + 1)) in
    (r.1,
     entry.2 ++ ActSubmit usn ::
       (if sb_click_ok s then [] else [ActInput PromptClickGo]) ++
       (if sb_captcha s then [ActInput PromptCaptcha] else []) ++ r.2).
Proof.
  unfold submit_with. cbn zeta.
  destruct (ensure_on_usn_page s) as [[] elog], (sb_field_found s),
    (sb_fill_ok s), (sb_click_ok s), (sb_captcha s);
    try destruct (retry_loop retries s usn (seq 0 (retries + 1))) as [r l];
    unfold mbind, mret, logged_bind, logged_ret, tell; cbn;
    by rewrite ?app_nil_r.
Qed.

(** The escalation prompt splits a log in one way only. *)
Lemma escalation_split_unique pre0 tail0 pre post :
  count_escalations pre0 = 0 →
  count_escalations tail0 = 0 →
  pre0 ++ ActInput PromptRetriesExhausted :: tail0 =
    pre ++ ActInput PromptRetriesExhausted :: post →
  pre = pre0 ∧ post = tail0.
Proof.
  unfold count_escalations. revert pre.
  induction pre0 as [|x pre0 IH]; intros pre Hpre Htail Heq.
  - destruct pre as [|y pre]; simpl in Heq.
    + by injection Heq as <-.
    + injection Heq as <- ->. exfalso.
      rewrite count_if_app, count_if_cons in Htail. simpl in Htail. lia.
  - rewrite count_if_cons in Hpre.
    destruct pre as [|y pre]; simpl in Heq.
    + injection Heq as -> _. simpl in Hpre. lia.
    + injection Heq as <- Heq.
      destruct (IH pre) as [-> ->]; [lia|done|done|done].
Qed.

(** C4 (amended): the prompt made because the automatic retries are
    exhausted is issued at most once.  Whenever it is issued, every wait
    of the retry loop timed out and exactly [retries] automatic
    re-submissions were tried before it; those for which the refill did
    not raise and GO could be clicked were made, the others are swallowed.
    Before it the operator was asked once if GO could not be clicked at
    the first submit, once if the captcha was on display after the first
    submit, and once for each tried re-submission that left the captcha on
    display, and for nothing else; after it nothing is re-submitted or
    tried and nobody is asked again.  If the long wait after it times out
    as well, the call returns the not-found tuple.  When the first submit
    is made and every wait times out the prompt is issued, after [retries]
    tried re-submissions.  A found result always comes from a wait that
    showed cards or a table. *)
Theorem retry_escalation_order retries s usn :
  let run := submit_with retries s usn in
  count_escalations run.2 ≤ 1 ∧
  (∀ pre post, run.2 = pre ++ ActInput PromptRetriesExhausted :: post →
     count_refills pre = retries ∧
     count_resubmits pre = count_nat (resubmitted s) 0 retries ∧
     count_prompts PromptClickGo pre = (if sb_click_ok s then 0 else 1) ∧
     count_prompts PromptCaptcha pre = (if sb_captcha s then 1 else 0) ∧
     count_prompts PromptCaptchaRetry pre =
       count_nat (sb_retry_captcha s) 0 retries ∧
     count_inputs pre =
       count_prompts PromptClickGo pre + count_prompts PromptCaptcha pre +
       count_prompts PromptCaptchaRetry pre ∧
     count_refills post = 0 ∧
     count_resubmits post = 0 ∧
     count_inputs post = 0 ∧
     (∀ k, k ≤ retries → sb_wait s k = IndTimeout) ∧
     (sb_long_wait s = IndTimeout → run.1 = Returned not_found)) ∧
  ((ensure_on_usn_page s).1 = true →
   sb_field_found s = true →
   sb_fill_ok s = true →
   (∀ k, k ≤ retries → sb_wait s k = IndTimeout) →
   count_escalations run.2 = 1 ∧ count_refills run.2 = retries) ∧
  (∀ r, run.1 = Returned r → res_found r = true →
     (∃ k, k ≤ retries ∧ shows_result (sb_wait s k) = true) ∨
     shows_result (sb_long_wait s) = true).
Proof.
  cbn zeta. rewrite submit_with_unfold. cbn zeta.
  set (entry_log := (ensure_on_usn_page s).2).
  set (head := entry_log ++ ActSubmit usn ::
         (if sb_click_ok s then [] else [ActInput PromptClickGo]) ++
         (if sb_captcha s then [ActInput PromptCaptcha] else [])).
  assert (∀ f, (∀ a, is_view_action a = true → f a = false) →
               count_if f entry_log = 0) as Hentry.
  { intros f Hf. by apply ensure_on_usn_page_quiet. }
  assert (count_escalations head = 0 ∧ count_refills head = 0 ∧
          count_resubmits head = 0 ∧
          count_prompts PromptClickGo head = (if sb_click_ok s then 0 else 1) ∧
          count_prompts PromptCaptcha head = (if sb_captcha s then 1 else 0) ∧
          count_prompts PromptCaptchaRetry head = 0 ∧
          count_inputs head =
            (if sb_click_ok s then 0 else 1) + (if sb_captcha s then 1 else 0))
    as (Hhead1 & Hhead2 & Hhead3 & Hhead4 & Hhead5 & Hhead6 & Hhead7).
  { unfold head, count_escalations, count_refills, count_resubmits,
      count_prompts, count_inputs.
    rewrite !count_if_app, !Hentry by (by intros []).
    by destruct (sb_click_ok s), (sb_captcha s). }
  assert (∀ pre post,
            entry_log = pre ++ ActInput PromptRetriesExhausted :: post → False)
    as Hno_entry.
  { intros pre post Heq.
    pose proof (Hentry is_escalation ltac:(by intros [])) as Hzero.
    rewrite Heq, count_if_app, count_if_cons in Hzero. simpl in Hzero. lia. }
  assert (count_escalations entry_log = 0) as Hentry_esc.
  { apply Hentry. by intros []. }
  destruct (ensure_on_usn_page s).1 eqn:Hready; cbn [negb].
  2: { cbn [fst snd]. split_and!; [lia| |done|done].
       intros pre post Heq. by destruct (Hno_entry pre post). }
  destruct (sb_field_found s) eqn:Hfield; cbn [negb].
  2: { cbn [fst snd]. split_and!; [lia| |done|].
       - intros pre post Heq. by destruct (Hno_entry pre post).
       - intros r [= <-]. done. }
  destruct (sb_fill_ok s) eqn:Hfill; cbn [negb].
  2: { cbn [fst snd]. split_and!; [lia| |done|done].
       intros pre post Heq. by destruct (Hno_entry pre post). }
  cbn [fst snd].
  assert (entry_log ++ ActSubmit usn ::
            (if sb_click_ok s then [] else [ActInput PromptClickGo]) ++
            (if sb_captcha s then [ActInput PromptCaptcha] else []) ++
            (retry_loop retries s usn (seq 0 (retries + 1))).2
          = head ++ (retry_loop retries s usn (seq 0 (retries + 1))).2) as ->.
  { unfold head. by rewrite <- !app_assoc, <- app_comm_cons, <- !app_assoc. }
  pose proof (retry_loop_shape retries s usn (retries + 1) 0) as Hshape.
  cbn zeta in Hshape. rewrite Nat.sub_0_r in Hshape.
  destruct Hshape
    as [(Hesc & k & Hk & Hans)
       |(pre0 & tail0 & Hlog & Hpre & Hrf & Hre & Hp1 & Hp2 & Hp3 & Hin
           & Ht1 & Ht2 & Ht3 & Ht4 & Hall & Hnf)];
    [lia|lia| |].
  - split_and!.
    + unfold count_escalations in *. rewrite count_if_app, Hhead1, Hesc. lia.
    + intros pre post Heq. exfalso.
      assert (count_escalations
                (head ++ (retry_loop retries s usn (seq 0 (retries + 1))).2) = 0)
        as Hzero.
      { unfold count_escalations in *. by rewrite count_if_app, Hhead1, Hesc. }
      unfold count_escalations in Hzero.
      rewrite Heq, count_if_app, count_if_cons in Hzero. simpl in Hzero. lia.
    + intros _ _ _ Hall. exfalso. apply Hans, Hall. lia.
    + intros r Hres Hfound.
      destruct (retry_loop_found_needs_result _ _ _ _ _ Hres Hfound)
        as [(j & Hj & Hshow)|Hlong]; [|by right].
      left. exists j. split; [|done].
      apply elem_of_seq in Hj. lia.
  - rewrite Hlog.
    assert (count_escalations (head ++ pre0) = 0) as Hhp.
    { unfold count_escalations in *. rewrite count_if_app. lia. }
    split_and!.
    + unfold count_escalations in *.
      rewrite !count_if_app, count_if_cons. simpl. lia.
    + intros pre post Heq. rewrite app_assoc in Heq.
      destruct (escalation_split_unique _ _ _ _ Hhp Ht1 Heq) as [-> ->].
      unfold count_escalations, count_refills, count_resubmits,
        count_prompts, count_inputs in *.
      rewrite !count_if_app.
      split_and!;
        try (intros j Hj; apply Hall; lia);
        try (intros Hto; by rewrite Hnf);
        destruct (sb_click_ok s), (sb_captcha s); (done || lia).
    + intros _ _ _ _. unfold count_escalations, count_refills in *.
      rewrite !count_if_app, !count_if_cons, Hhead1, Hhead2. simpl. lia.
    + intros r Hres Hfound.
      destruct (retry_loop_found_needs_result _ _ _ _ _ Hres Hfound)
        as [(j & Hj & Hshow)|Hlong]; [|by right].
      left. exists j. split; [|done].
      apply elem_of_seq in Hj. lia.
Qed.

End SubmitFacts.

Section StoredFacts.

Context {gpa : Type}.

Implicit Types (dest sem : SemesterObj gpa) (sems frags : list (SemesterObj gpa)).
Implicit Types (st : StudentObj gpa) (m : gmap string (StudentObj gpa)).
Implicit Types (r : Result gpa).

(** *** What the extractor emits *)

Lemma collect_page_has_courses (page : PageData gpa) sems cgpa :
  Forall has_courses sems →
  Forall has_courses (collect_page page sems cgpa).1.
Proof.
  intros Hsems. unfold collect_page. cbn [fst].
  destruct (extract_courses_from_visible_table (pd_rows page)) eqn:E; [done|].
  apply Forall_app. split; [done|]. by apply Forall_singleton.
Qed.

(** Rows that do not parse add nothing to the course list. *)
Lemma add_row_skips courses (row : Row) :
  ¬ row_parses row → add_row courses row = courses.
Proof.
  intros Hrow. unfold add_row. cbn zeta.
  case_bool_decide as Hlen; [|done].
  destruct (decide (default "" (cells row !! 0) = "")) as [Hc|Hc].
  { by rewrite (bool_decide_eq_true_2 _ Hc). }
  destruct (decide (default "" (cells row !! 1) = "")) as [Hn|Hn].
  { rewrite (bool_decide_eq_true_2 _ Hn). by rewrite andb_false_r. }
  by destruct Hrow.
Qed.

Lemma extract_courses_none (rows : list Row) :
  Forall (λ row, ¬ row_parses row) rows →
  extract_courses_from_visible_table rows = [].
Proof.
  intros Hrows. unfold extract_courses_from_visible_table.
  assert (∀ acc, foldl add_row acc rows = acc) as Hfold; [|apply Hfold].
  induction Hrows as [|row rows Hrow Hrows IH]; intros acc; [done|].
  simpl. by rewrite add_row_skips.
Qed.

(** A row that parses yields a course. *)
Lemma add_row_grows courses (row : Row) : courses ≠ [] → add_row courses row ≠ [].
Proof.
  intros Hc. unfold add_row. cbn zeta. case_bool_decide; [|done].
  destruct (negb _ && negb _); [|done]. by destruct courses.
Qed.

Lemma extract_courses_some (rows : list Row) (row : Row) :
  row ∈ rows → row_parses row →
  extract_courses_from_visible_table rows ≠ [].
Proof.
  intros Hin Hrow. unfold extract_courses_from_visible_table.
  assert (∀ (l : list Row) acc, acc ≠ [] → foldl add_row acc l ≠ []) as Hgrow.
  { intros l. induction l as [|r0 l IH]; intros acc Hacc; [done|].
    simpl. by apply IH, add_row_grows. }
  assert (∀ acc, foldl add_row acc rows ≠ []) as Hfold; [|apply Hfold].
  induction rows as [|r0 rows IH]; intros acc.
  - by apply elem_of_nil in Hin.
  - apply elem_of_cons in Hin as [->|Hin].
    + simpl. apply Hgrow. destruct Hrow as (Hlen & Hc & Hn).
      unfold add_row. cbn zeta. rewrite (bool_decide_eq_true_2 _ Hlen).
      rewrite (bool_decide_eq_false_2 _ Hc), (bool_decide_eq_false_2 _ Hn).
      simpl. by destruct acc.
    + simpl. by apply IH.
Qed.

Lemma collect_page_no_rows (page : PageData gpa) sems cgpa :
  no_row_parses page →
  (collect_page page sems cgpa).1 = sems.
Proof.
  intros Hrows. unfold collect_page. cbn [fst].
  by rewrite (extract_courses_none _ Hrows).
Qed.

Lemma cards_loop_has_courses idx (visits : list (CardVisit gpa)) sems cgpa acc :
  Forall has_courses sems →
  (cards_loop idx visits sems cgpa).1 = Some acc →
  Forall has_courses acc.1.
Proof.
  revert idx sems cgpa.
  induction visits as [|v rest IH]; intros idx sems cgpa Hsems.
  { by intros [= <-]. }
  rewrite cards_loop_cons. case_bool_decide; [by intros [= <-]|]. cbn zeta.
  destruct (cv_view_btn v); cbn [negb]; [|by apply IH].
  destruct (cv_click_ok v); cbn [negb fst]; [|by apply IH].
  case_bool_decide.
  { destruct (raises (cv_recover v)); cbn [fst]; [done|by apply IH]. }
  destruct (cv_back_ok v); [|destruct (raises (cv_recover v))]; cbn [fst].
  - by apply IH, collect_page_has_courses.
  - done.
  - intros [= <-]. by apply collect_page_has_courses.
Qed.

Lemma cards_loop_no_rows idx (visits : list (CardVisit gpa)) sems cgpa acc :
  Forall (λ v, no_row_parses (cv_page v)) visits →
  (cards_loop idx visits sems cgpa).1 = Some acc →
  acc.1 = sems.
Proof.
  revert idx sems cgpa.
  induction visits as [|v rest IH]; intros idx sems cgpa Hrows.
  { by intros [= <-]. }
  apply Forall_cons in Hrows as [Hv Hrest].
  rewrite cards_loop_cons. case_bool_decide; [by intros [= <-]|]. cbn zeta.
  destruct (cv_view_btn v); cbn [negb]; [|by apply IH].
  destruct (cv_click_ok v); cbn [negb fst]; [|by apply IH].
  case_bool_decide.
  { destruct (raises (cv_recover v)); cbn [fst]; [done|by apply IH]. }
  destruct (cv_back_ok v); [|destruct (raises (cv_recover v))]; cbn [fst].
  - intros Hacc. rewrite (IH _ _ _ Hrest Hacc). by apply collect_page_no_rows.
  - done.
  - intros [= <-]. by apply collect_page_no_rows.
Qed.

Lemma found_iff_nonempty sems :
  bool_decide (0 < length sems) = true ↔ sems ≠ [].
Proof.
  rewrite bool_decide_eq_true. destruct sems; simpl; split; (done || lia).
Qed.

Lemma not_found_well_formed : well_formed (not_found (gpa := gpa)).
Proof. split; [done|]. by split. Qed.

Lemma leave_with_well_formed (s : ScrapeScript gpa) acc r :
  Forall has_courses acc.1 →
  (leave_with s acc).1 = Returned r → well_formed r.
Proof.
  intros Hacc. rewrite leave_with_unfold. cbn [fst].
  destruct (raises (ss_recover s)); [done|]. intros [= <-].
  split; [done|apply found_iff_nonempty].
Qed.

Lemma scrape_well_formed (s : ScrapeScript gpa) r :
  (scrape_current_usn_view_structured s).1 = Returned r → well_formed r.
Proof.
  destruct (ss_oops s) eqn:Hoops.
  { unfold scrape_current_usn_view_structured. rewrite Hoops.
    intros [= <-]. apply not_found_well_formed. }
  destruct (decide (ss_visits s = [])) as [Hnil|Hcons].
  - rewrite scrape_direct by done. destruct (ss_direct_present s).
    + apply leave_with_well_formed. by apply collect_page_has_courses.
    + intros [= <-]. apply not_found_well_formed.
  - rewrite scrape_cards by done. cbn zeta.
    destruct (cards_loop 0 (ss_visits s) [] None).1 as [acc|] eqn:Hacc;
      cbn [fst]; [|done].
    apply leave_with_well_formed.
    by eapply cards_loop_has_courses; [|exact Hacc].
Qed.

Lemma leave_with_no_rows (s : ScrapeScript gpa) acc r :
  acc.1 = [] →
  (leave_with s acc).1 = Returned r →
  res_found r = false ∧ res_semesters r = [].
Proof.
  intros Hacc. rewrite leave_with_unfold. cbn [fst].
  destruct (raises (ss_recover s)); [done|]. intros [= <-].
  unfold res_found, res_semesters. cbn [fst snd]. by rewrite Hacc.
Qed.

Lemma scrape_no_rows (s : ScrapeScript gpa) r :
  no_course_rows s →
  (scrape_current_usn_view_structured s).1 = Returned r →
  res_found r = false ∧ res_semesters r = [].
Proof.
  intros [Hcards Hdirect].
  destruct (ss_oops s) eqn:Hoops.
  { unfold scrape_current_usn_view_structured. rewrite Hoops.
    by intros [= <-]. }
  destruct (decide (ss_visits s = [])) as [Hnil|Hcons].
  - rewrite scrape_direct by done. destruct (ss_direct_present s).
    + apply leave_with_no_rows. by apply collect_page_no_rows.
    + by intros [= <-].
  - rewrite scrape_cards by done. cbn zeta.
    destruct (cards_loop 0 (ss_visits s) [] None).1 as [acc|] eqn:Hacc;
      cbn [fst]; [|done].
    apply leave_with_no_rows. by eapply cards_loop_no_rows.
Qed.

Lemma retry_loop_well_formed retries (s : SubmitScript gpa) usn attempts r :
  (retry_loop retries s usn attempts).1 = Returned r → well_formed r.
Proof.
  induction attempts as [|a rest IH].
  { intros [= <-]. apply not_found_well_formed. }
  rewrite retry_loop_cons. destruct (sb_wait s a).
  - intros [= <-]. apply not_found_well_formed.
  - apply scrape_well_formed.
  - apply scrape_well_formed.
  - case_bool_decide; [done|].
    destruct (shows_result (sb_long_wait s)).
    + apply scrape_well_formed.
    + intros [= <-]. apply not_found_well_formed.
Qed.

Lemma retry_loop_no_rows retries (s : SubmitScript gpa) usn attempts r :
  no_course_rows (sb_view s) →
  (retry_loop retries s usn attempts).1 = Returned r →
  res_found r = false ∧ res_semesters r = [].
Proof.
  intros Hrows. induction attempts as [|a rest IH]; [by intros [= <-]|].
  rewrite retry_loop_cons. destruct (sb_wait s a).
  - by intros [= <-].
  - by apply scrape_no_rows.
  - by apply scrape_no_rows.
  - case_bool_decide; [done|].
    destruct (shows_result (sb_long_wait s)); [|by intros [= <-]].
    by apply scrape_no_rows.
Qed.

Lemma submit_with_well_formed retries (s : SubmitScript gpa) usn r :
  (submit_with retries s usn).1 = Returned r → well_formed r.
Proof.
  rewrite submit_with_unfold. cbn zeta.
  destruct (negb _); [done|]. destruct (negb _).
  { intros [= <-]. apply not_found_well_formed. }
  destruct (negb _); [done|]. apply retry_loop_well_formed.
Qed.

Lemma submit_with_no_rows retries (s : SubmitScript gpa) usn r :
  no_course_rows (sb_view s) →
  (submit_with retries s usn).1 = Returned r →
  res_found r = false ∧ res_semesters r = [].
Proof.
  intros Hrows. rewrite submit_with_unfold.
  cbn zeta. destruct (negb _); [done|]. destruct (negb _).
  { by intros [= <-]. }
  destruct (negb _); [done|]. by apply retry_loop_no_rows.
Qed.

(** *** What the merge stores *)

Lemma merge_into_has_courses dest sem :
  has_courses dest → has_courses (merge_into dest sem).
Proof.
  unfold has_courses. rewrite merge_into_Courses.
  destruct (Courses dest); [done|]. by intros _.
Qed.

Lemma merge_one_has_courses idx sems sem :
  Forall has_courses sems → has_courses sem →
  Forall has_courses (merge_one idx sems sem).
Proof.
  intros Hsems Hsem. unfold merge_one.
  destruct (idx !! Semester sem) as [i|].
  - destruct (sems !! i) as [dest|] eqn:Hi; [|done].
    apply Forall_insert; [done|]. apply merge_into_has_courses.
    by eapply Forall_lookup_1.
  - apply Forall_app. split; [done|]. by apply Forall_singleton.
Qed.

Lemma merge_semesters_has_courses st frags :
  Forall has_courses (Semesters st) →
  Forall has_courses frags →
  Forall has_courses (Semesters (merge_semesters st frags)).
Proof.
  intros Hst Hfrags. unfold merge_semesters. cbn [Semesters set_Semesters].
  generalize (idx_by_sem (Semesters st)) as idx. intros idx.
  revert Hst. generalize (Semesters st) as sems.
  induction Hfrags as [|f frags Hf Hfrags IH]; intros sems Hsems; [done|].
  simpl. apply IH. by apply merge_one_has_courses.
Qed.

Lemma ensure_student_has_courses m usn name (cgpa : option gpa) :
  aggregate_has_courses m →
  aggregate_has_courses (ensure_student m usn name cgpa).
Proof.
  intros Hm. unfold ensure_student.
  destruct (m !! usn) as [st|] eqn:Hst.
  - apply map_Forall_insert_2; [|done].
    pose proof (Hm _ _ Hst) as Hsems. simpl in Hsems.
    destruct (truthy name && _), cgpa; done.
  - apply map_Forall_insert_2; [|done]. simpl. done.
Qed.

Lemma ensure_and_merge_has_courses m usn name (cgpa : option gpa) frags :
  aggregate_has_courses m →
  Forall has_courses frags →
  aggregate_has_courses (ensure_and_merge m usn name cgpa frags).
Proof.
  intros Hm Hfrags. unfold ensure_and_merge.
  pose proof (ensure_student_has_courses m usn name cgpa Hm) as Hens.
  destruct (ensure_student m usn name cgpa !! usn) as [stu|] eqn:Hstu; [|done].
  apply map_Forall_insert_2; [|done].
  apply merge_semesters_has_courses; [|done]. exact (Hens _ _ Hstu).
Qed.

Lemma track_loop_has_courses threshold year branch back
    (os : list (Outcome gpa)) consec roll m :
  Forall (λ o, ∀ r, o = Returned r → well_formed r) os →
  aggregate_has_courses m →
  aggregate_has_courses
    (ls_map (track_loop threshold year branch back os consec roll m).1).
Proof.
  intros Hos. revert consec roll m.
  induction Hos as [|o os Ho Hos IH]; intros consec roll m Hm; [done|].
  destruct o as [|r].
  - rewrite track_loop_raised. cbn zeta. cbn [fst]. by apply IH.
  - destruct (res_found r) eqn:Hfound.
    + rewrite track_loop_present by done. cbn zeta. cbn [fst].
      apply IH, ensure_and_merge_has_courses; [done|].
      by apply (Ho r eq_refl).
    + destruct (raises (back roll)) eqn:Hraise.
      { by rewrite track_loop_absent_abort. }
      destruct (decide (threshold ≤ S consec)).
      * by rewrite track_loop_absent_stop.
      * rewrite track_loop_absent_go by (done || lia). cbn zeta. cbn [fst].
        by apply IH.
Qed.

(** C10: every stored semester has at least one course.  Started on an
    aggregate with that property and fed with whatever the submissions
    return for any driver scripts, a track leaves an aggregate with that
    property; every tuple a submission returns holds only fragments with a
    course and reports found exactly when it holds a fragment; when no page
    read for an identifier has a course row that parses, the tuple is
    not-found and holds no fragment; and a not-found tuple adds one to the
    counter of the track. *)
Theorem stored_semesters_have_courses threshold year branch back
    (runs : list (SubmitScript gpa * string)) consec roll m :
  aggregate_has_courses m →
  let outcomes := (λ p, (submit_and_collect_usn p.1 p.2).1) <$> runs in
  aggregate_has_courses
    (ls_map (track_loop threshold year branch back outcomes consec roll m).1) ∧
  (∀ s usn r, (submit_and_collect_usn s usn).1 = Returned r →
     Forall has_courses (res_semesters r) ∧
     (res_found r = true ↔ res_semesters r ≠ [])) ∧
  (∀ s usn r, no_course_rows (sb_view s) →
     (submit_and_collect_usn s usn).1 = Returned r →
     res_found r = false ∧ res_semesters r = []) ∧
  (∀ r, res_found r = false →
     ls_consec
       (track_loop threshold year branch back [Returned r] consec roll m).1
       = S consec).
Proof.
  intros Hm. cbn zeta. split_and!.
  - apply track_loop_has_courses; [|done].
    apply Forall_fmap, Forall_forall. intros [s usn] _ r Hr.
    by eapply submit_with_well_formed.
  - intros s usn r Hr. by eapply submit_with_well_formed.
  - intros s usn r Hrows Hr. by eapply submit_with_no_rows.
  - intros r Hr. destruct (raises (back roll)) eqn:Hraise.
    { by rewrite track_loop_absent_abort. }
    destruct (decide (threshold ≤ S consec)).
    + by rewrite track_loop_absent_stop.
    + by rewrite track_loop_absent_go by (done || lia).
Qed.

End StoredFacts.

(** * The properties on the sample data *)

(** C1: merging the same fragments a second time changes the record when
    two of them carry the same number, a number the record did not hold
    before the first merge.  The first merge appends both; the second one
    finds the number at the last of the two and folds the first fragment
    into it. *)
Theorem merge_twice_changes_record :
  let f := [ex_sem3_algo; ex_sem3_os] in
  let once := ensure_and_merge ∅ ex_usn (Some "A Student") None f in
  let twice := ensure_and_merge once ex_usn (Some "A Student") None f in
  Semesters <$> once !! ex_usn = Some [ex_sem3_algo; ex_sem3_os] ∧
  Semesters <$> twice !! ex_usn =
    Some [ex_sem3_algo;
          mkSemester (Some 3%Z) (Some "8.5") [ex_os; ex_algo]] ∧
  twice ≠ once.
Proof.
  cbn zeta. split_and!.
  - by vm_compute.
  - by vm_compute.
  - intros Heq. apply (f_equal (λ m, Semesters <$> m !! ex_usn)) in Heq.
    vm_compute in Heq. discriminate Heq.
Qed.

(** The same second merge when it receives the very objects the first one
    stored: the record ends the same way, and the caller's fragment list
    has changed with it. *)
Lemma merge_twice_shared_objects :
  let heap := [ex_sem3_algo; ex_sem3_os] in
  let once := merge_semesters_ref heap [] [0; 1] in
  let twice := merge_semesters_ref once.1 once.2 [0; 1] in
  deref once.1 once.2 = [ex_sem3_algo; ex_sem3_os] ∧
  deref twice.1 twice.2 =
    [ex_sem3_algo; mkSemester (Some 3%Z) (Some "8.5") [ex_os; ex_algo]] ∧
  deref twice.1 [0; 1] = deref twice.1 twice.2.
Proof. cbn zeta. split_and!; by vm_compute. Qed.

Lemma unknown_number_fragment_is_coalesced_witness :
  (∃ s, s ∈ Semesters ex_student_unknown ∧ Semester s = None) ∧
  count_unknown (Semesters (merge_semesters ex_student_unknown [ex_unknown_os]))
    = count_unknown (Semesters ex_student_unknown).
Proof.
  assert (∃ s, s ∈ Semesters ex_student_unknown ∧ Semester s = None) as Hex.
  { exists ex_unknown_algo. split; [left | reflexivity]. }
  split; [exact Hex|].
  exact (proj1 (unknown_number_fragment_is_coalesced
                  ex_student_unknown [ex_unknown_os] Hex)).
Defined.

(** C2 as stated fails: a record that holds one semester without a number
    and receives a fragment without a number still holds one such semester;
    the fragment was folded into it, not appended.  Likewise a fragment
    without a number merged twice into a new record is stored once. *)
Lemma unknown_number_fragment_not_appended :
  (∃ s, s ∈ Semesters ex_student_unknown ∧ Semester s = None) ∧
  Semester ex_unknown_os = None ∧
  Semesters (merge_semesters ex_student_unknown [ex_unknown_os]) =
    [mkSemester None None [ex_algo; ex_os]] ∧
  count_unknown (Semesters (merge_semesters ex_student_unknown [ex_unknown_os]))
    ≠ 2 ∧
  Semesters <$>
    ensure_and_merge
      (ensure_and_merge ∅ ex_usn (Some "A Student") None [ex_unknown_algo])
      ex_usn (Some "A Student") None [ex_unknown_algo] !! ex_usn
    = Some [ex_unknown_algo].
Proof.
  split_and!.
  - exists ex_unknown_algo. split; [left | reflexivity].
  - reflexivity.
  - by vm_compute.
  - by vm_compute.
  - by vm_compute.
Qed.



(** C4 as stated fails.  With every wait timing out and every refill
    raising, no re-submission is made before the operator is asked: the
    field is never filled again and GO is never clicked again.  With the
    captcha on display after the first submit, the operator is asked
    twice, the first time before any re-submission. *)
Lemma escalation_without_resubmission :
  (∀ k, sb_wait ex_script_stale k = IndTimeout) ∧
  (∀ k, sb_refill_ok ex_script_stale k = false) ∧
  (submit_and_collect_usn ex_script_stale ex_usn).2 =
    [ActSubmit ex_usn;
     ActWait 12; ActRefill ex_usn;
     ActWait 12; ActRefill ex_usn;
     ActWait 12; ActInput PromptRetriesExhausted; ActWait 30] ∧
  count_resubmits (submit_and_collect_usn ex_script_stale ex_usn).2 = 0 ∧
  RETRY_ON_TIMEOUT = 2 ∧
  (∀ k, sb_wait ex_script_captcha k = IndTimeout) ∧
  (submit_and_collect_usn ex_script_captcha ex_usn).2 =
    [ActSubmit ex_usn; ActInput PromptCaptcha;
     ActWait 12; ActRefill ex_usn; ActResubmit ex_usn;
     ActWait 12; ActRefill ex_usn; ActResubmit ex_usn;
     ActWait 12; ActInput PromptRetriesExhausted; ActWait 30] ∧
  count_inputs (submit_and_collect_usn ex_script_captcha ex_usn).2 = 2.
Proof. split_and!; try done; by vm_compute. Qed.

Lemma scalar_fill_is_monotone_witness :
  let m : gmap string (StudentObj string) :=
    {[ ex_usn := ex_placeholder_student ]} in
  m !! ex_usn = Some ex_placeholder_student ∧
  ∃ st', ensure_and_merge m ex_usn (Some "A Student") None [ex_sem3_algo]
           !! ex_usn = Some st' ∧
         Name st' = "A Student" ∧ CGPA st' = Some "7.9".
Proof.
  cbn zeta.
  assert (({[ ex_usn := ex_placeholder_student ]}
             : gmap string (StudentObj string)) !! ex_usn
          = Some ex_placeholder_student) as Hm by apply lookup_singleton_eq.
  split; [exact Hm|].
  destruct (scalar_fill_is_monotone _ ex_usn ex_placeholder_student
              (Some "A Student") None [ex_sem3_algo] Hm)
    as (st' & Hst' & _ & _ & _ & Hcgpa & _ & _ & Hname).
  exists st'. split_and!.
  - exact Hst'.
  - apply (Hname "A Student"); [reflexivity|discriminate|].
    intros [_ Hvalid]. by apply Hvalid.
  - by rewrite Hcgpa.
Defined.

Lemma course_identity_dedup_witness :
  Semester ex_sem3_both = Semester ex_sem3_algo ∧
  (∀ s, s ∈ Semesters ex_new_student → Semester s ≠ Semester ex_sem3_algo) ∧
  NoDup (course_keys (Courses ex_sem3_algo)) ∧
  NoDup (course_keys (Courses ex_sem3_both)) ∧
  ∃ merged,
    Semesters (merge_semesters (merge_semesters ex_new_student [ex_sem3_algo])
                               [ex_sem3_both]) =
      Semesters ex_new_student ++ [merged] ∧
    Semester merged = Semester ex_sem3_algo ∧
    NoDup (course_keys (Courses merged)) ∧
    length (Courses merged) =
      size (existing_keys (Courses ex_sem3_algo) ∪
            existing_keys (Courses ex_sem3_both)).
Proof.
  assert (∀ s, s ∈ Semesters ex_new_student →
               Semester s ≠ Semester ex_sem3_algo) as Hfresh.
  { intros s Hs. by apply elem_of_nil in Hs. }
  assert (NoDup (course_keys (Courses ex_sem3_algo))) as Hd1
    by (apply (bool_decide_unpack _); by vm_compute).
  assert (NoDup (course_keys (Courses ex_sem3_both))) as Hd2
    by (apply (bool_decide_unpack _); by vm_compute).
  split_and!; [reflexivity|exact Hfresh|exact Hd1|exact Hd2|].
  exact (course_identity_dedup ex_new_student ex_sem3_algo ex_sem3_both
           eq_refl Hfresh Hd1 Hd2).
Defined.

(** C6 as stated fails: a fragment that lists the same course row twice is
    stored as it is; after a second fragment for the same semester is
    merged the course list still holds the repeated triple and is longer
    than the union of the two triple sets. *)
Lemma repeated_row_survives_merge :
  Semester ex_sem3_both = Semester ex_sem3_repeated ∧
  Semesters (merge_semesters (merge_semesters ex_new_student [ex_sem3_repeated])
                             [ex_sem3_both]) =
    [mkSemester (Some 3%Z) None [ex_algo; ex_algo; ex_os]] ∧
  ¬ NoDup (course_keys [ex_algo; ex_algo; ex_os]) ∧
  length [ex_algo; ex_algo; ex_os] = 3 ∧
  size (existing_keys (Courses ex_sem3_repeated) ∪
        existing_keys (Courses ex_sem3_both)) = 2.
Proof.
  split_and!.
  - reflexivity.
  - by vm_compute.
  - intros Hnd. apply NoDup_cons in Hnd as [Hnotin _]. apply Hnotin. left.
  - reflexivity.
  - by vm_compute.
Qed.

Lemma same_number_twice_in_one_call_witness :
  Semester ex_sem3_algo = Some 3%Z ∧
  Semester ex_sem3_os = Some 3%Z ∧
  (∀ s, s ∈ Semesters ex_new_student → Semester s ≠ Some 3%Z) ∧
  Semesters (merge_semesters ex_new_student [ex_sem3_algo; ex_sem3_os]) =
    Semesters ex_new_student ++ [ex_sem3_algo; ex_sem3_os] ∧
  ¬ NoDup (known_numbers
             (Semesters (merge_semesters ex_new_student
                                         [ex_sem3_algo; ex_sem3_os]))).
Proof.
  assert (∀ s, s ∈ Semesters ex_new_student → Semester s ≠ Some 3%Z) as Hfresh.
  { intros s Hs. by apply elem_of_nil in Hs. }
  split_and!; [reflexivity|reflexivity|exact Hfresh|..];
    apply (same_number_twice_in_one_call ex_new_student ex_sem3_algo
             ex_sem3_os 3 eq_refl eq_refl Hfresh).
Defined.



(** C9 as stated fails on one point: the call for the first roll number
    raises, every way back to the entry page fails, the recovery returns
    [False] without having found the entry field, and the loop goes on
    with the second roll number all the same; so it does when the
    recovery itself raises. *)
Lemma recovery_can_fail :
  (go_back_to_usn_entry_keep_session ex_back_lost).1 = Some false ∧
  (normal_track "21" "AD" (λ _, ex_back_lost) [Raised; ex_present] ∅).2 =
    [ActProcess "1MS21AD001"; ActRecoverEntry;
     ActNav NavBack; ActNav NavBack; ActNav NavLink; ActNav NavReload;
     ActProcess "1MS21AD002"] ∧
  (go_back_to_usn_entry_keep_session ex_back_broken).1 = None ∧
  (normal_track "21" "AD" (λ _, ex_back_broken) [Raised; ex_present] ∅).2 =
    [ActProcess "1MS21AD001"; ActRecoverEntry; ActNav NavBack;
     ActProcess "1MS21AD002"] ∧
  ls_status
    (normal_track "21" "AD" (λ _, ex_back_broken) [Raised; ex_present] ∅).1
    = LoopPending.
Proof. split_and!; by vm_compute. Qed.

Lemma stored_semesters_have_courses_witness :
  aggregate_has_courses (∅ : gmap string (StudentObj string)) ∧
  aggregate_has_courses
    (ls_map (normal_track "21" "AD" (λ _, ex_back_ok)
               [(submit_and_collect_usn ex_script_found "1MS21AD001").1;
                (submit_and_collect_usn ex_script_captcha "1MS21AD002").1]
               ∅).1).
Proof.
  assert (aggregate_has_courses (∅ : gmap string (StudentObj string))) as Hm
    by apply map_Forall_empty.
  split; [exact Hm|].
  exact (proj1 (stored_semesters_have_courses MAX_CONSEC_OOPS "21" "AD"
                  (λ _, ex_back_ok)
                  [(ex_script_found, "1MS21AD001");
                   (ex_script_captcha, "1MS21AD002")] 0 ROLL_START ∅ Hm)).
Defined.

(** * Further properties of the code *)

Section MergeMore.

Context {gpa : Type}.

Implicit Types (s dest sem : SemesterObj gpa) (sems frags : list (SemesterObj gpa)).
Implicit Types (st : StudentObj gpa) (m : gmap string (StudentObj gpa)).
Implicit Types (idx : gmap (option Z) nat).

(** *** The merge only adds *)

Lemma semester_extends_refl s : semester_extends s s.
Proof. by split_and!. Qed.

Lemma semester_extends_trans s1 s2 s3 :
  semester_extends s1 s2 → semester_extends s2 s3 → semester_extends s1 s3.
Proof.
  intros (Hn1 & Hc1 & Hg1) (Hn2 & Hc2 & Hg2). split_and!.
  - congruence.
  - by etrans.
  - intros v Hv. by apply Hg2, Hg1.
Qed.

Lemma merge_into_extends dest sem : semester_extends dest (merge_into dest sem).
Proof.
  split_and!.
  - apply merge_into_Semester.
  - rewrite merge_into_Courses. by apply prefix_app_r.
  - intros v Hv. by rewrite merge_into_SGPA, Hv.
Qed.

Lemma semesters_extend_refl sems : semesters_extend sems sems.
Proof. intros i s Hs. exists s. split; [done|apply semester_extends_refl]. Qed.

Lemma semesters_extend_trans sems1 sems2 sems3 :
  semesters_extend sems1 sems2 → semesters_extend sems2 sems3 →
  semesters_extend sems1 sems3.
Proof.
  intros H12 H23 i s Hs.
  destruct (H12 i s Hs) as (s2 & Hs2 & He2).
  destruct (H23 i s2 Hs2) as (s3 & Hs3 & He3).
  exists s3. split; [done|]. by eapply semester_extends_trans.
Qed.

Lemma merge_one_extends idx sems sem : semesters_extend sems (merge_one idx sems sem).
Proof.
  intros i s Hs. unfold merge_one.
  destruct (idx !! Semester sem) as [j|].
  - destruct (sems !! j) as [dest|] eqn:Hj.
    + destruct (decide (j = i)) as [->|Hne].
      * exists (merge_into dest sem). split.
        -- apply list_lookup_insert_eq. by eapply lookup_lt_Some.
        -- assert (dest = s) as -> by congruence. apply merge_into_extends.
      * exists s. rewrite list_lookup_insert_ne by done.
        split; [done|apply semester_extends_refl].
    + exists s. split; [done|apply semester_extends_refl].
  - exists s. split; [by apply lookup_app_l_Some|apply semester_extends_refl].
Qed.

Lemma merge_loop_extends idx sems frags :
  semesters_extend sems (foldl (merge_one idx) sems frags).
Proof.
  revert sems. induction frags as [|f frags IH]; intros sems.
  - apply semesters_extend_refl.
  - simpl. eapply semesters_extend_trans; [apply merge_one_extends|apply IH].
Qed.

(** X1: [merge_semesters] never removes, moves or renumbers a stored semester,
    never removes or reorders a stored course, and never replaces a known
    SGPA; the name, the CGPA and the identifier of the record are not its
    business. *)
Theorem merge_semesters_only_adds st frags :
  semesters_extend (Semesters st) (Semesters (merge_semesters st frags)) ∧
  length (Semesters st) ≤ length (Semesters (merge_semesters st frags)) ∧
  USN (merge_semesters st frags) = USN st ∧
  Name (merge_semesters st frags) = Name st ∧
  CGPA (merge_semesters st frags) = CGPA st.
Proof.
  split_and!; try done.
  - apply merge_loop_extends.
  - unfold merge_semesters. cbn [Semesters set_Semesters].
    generalize (idx_by_sem (Semesters st)) as idx. intros idx.
    generalize (Semesters st) as sems.
    induction frags as [|f frags IH]; intros sems; [done|].
    simpl. etrans; [apply (merge_one_length idx sems f)|apply IH].
Qed.

(** *** One identifier at a time *)

Lemma ensure_student_other m usn name cgpa other :
  other ≠ usn → ensure_student m usn name cgpa !! other = m !! other.
Proof.
  intros Hne. unfold ensure_student.
  destruct (m !! usn); by rewrite lookup_insert_ne.
Qed.

Lemma ensure_and_merge_insert m usn name cgpa frags stu :
  ensure_student m usn name cgpa !! usn = Some stu →
  ensure_and_merge m usn name cgpa frags =
  <[usn := merge_semesters stu frags]> (ensure_student m usn name cgpa).
Proof. intros Hstu. unfold ensure_and_merge. by rewrite Hstu. Qed.

Lemma ensure_and_merge_other m usn name cgpa frags other :
  other ≠ usn → ensure_and_merge m usn name cgpa frags !! other = m !! other.
Proof.
  intros Hne.
  destruct (ensure_and_merge_lookup m usn name cgpa frags) as (stu & Hstu & _).
  rewrite (ensure_and_merge_insert _ _ _ _ _ _ Hstu), lookup_insert_ne by done.
  by apply ensure_student_other.
Qed.

Lemma ensure_student_USN m usn name cgpa stu :
  ensure_student m usn name cgpa !! usn = Some stu →
  USN stu = default usn (USN <$> m !! usn).
Proof.
  intros Hstu. unfold ensure_student in Hstu. destruct (m !! usn) as [st0|].
  - rewrite lookup_insert_eq in Hstu. injection Hstu as <-. simpl.
    by destruct (truthy name && _), cgpa.
  - rewrite lookup_insert_eq in Hstu. by injection Hstu as <-.
Qed.

Lemma ensure_and_merge_keyed m usn name cgpa frags :
  aggregate_keyed m → aggregate_keyed (ensure_and_merge m usn name cgpa frags).
Proof.
  intros Hkeyed.
  destruct (ensure_and_merge_lookup m usn name cgpa frags) as (stu & Hstu & _).
  pose proof (ensure_student_USN _ _ _ _ _ Hstu) as Husn.
  rewrite (ensure_and_merge_insert _ _ _ _ _ _ Hstu).
  apply map_Forall_insert_2.
  - change (USN stu = usn). rewrite Husn.
    destruct (m !! usn) as [st0|] eqn:Hst0; [|done]. exact (Hkeyed _ _ Hst0).
  - intros k st Hk. destruct (decide (k = usn)) as [->|Hne].
    + rewrite Hstu in Hk. injection Hk as <-. rewrite Husn.
      destruct (m !! usn) as [st0|] eqn:Hst0; [|done]. exact (Hkeyed _ _ Hst0).
    + rewrite ensure_student_other in Hk by done. exact (Hkeyed _ _ Hk).
Qed.

(** X2: merging for one identifier leaves every other record as it is, leaves
    a record for that identifier, and keeps every record filed under its
    own identifier. *)
Theorem ensure_and_merge_touches_one_record m usn name cgpa frags :
  (∀ other, other ≠ usn →
     ensure_and_merge m usn name cgpa frags !! other = m !! other) ∧
  (∃ st, ensure_and_merge m usn name cgpa frags !! usn = Some st ∧
         USN st = default usn (USN <$> m !! usn)) ∧
  (aggregate_keyed m → aggregate_keyed (ensure_and_merge m usn name cgpa frags)).
Proof.
  split_and!.
  - intros other Hne. by apply ensure_and_merge_other.
  - destruct (ensure_and_merge_lookup m usn name cgpa frags)
      as (stu & Hstu & Hres).
    exists (merge_semesters stu frags). split; [done|].
    exact (ensure_student_USN _ _ _ _ _ Hstu).
  - apply ensure_and_merge_keyed.
Qed.

(** X3: the first merge for an identifier stores the fragments as they come,
    in their order, whatever numbers and courses they repeat. *)
Theorem first_merge_stores_fragments m usn name cgpa frags :
  m !! usn = None →
  ensure_and_merge m usn name cgpa frags !! usn =
  Some {| USN := usn; Name := name_or_empty name; CGPA := cgpa;
          Semesters := frags |}.
Proof.
  intros Hnew.
  destruct (ensure_and_merge_lookup m usn name cgpa frags) as (stu & Hstu & ->).
  unfold ensure_student in Hstu. rewrite Hnew, lookup_insert_eq in Hstu.
  injection Hstu as <-.
  set (new := {| USN := usn; Name := name_or_empty name; CGPA := cgpa;
                 Semesters := [] |}).
  assert (Semesters (merge_semesters new frags) = [] ++ frags) as Hsems.
  { apply merge_semesters_all_fresh. intros f _ s Hs.
    by apply elem_of_nil in Hs. }
  change (merge_semesters new frags)
    with (set_Semesters (Semesters (merge_semesters new frags)) new).
  by rewrite Hsems.
Qed.

(** X4: the triples of a semester after a fragment was folded into it are
    those it had and those of the fragment, no more and no less. *)
Theorem merged_triples_are_the_union st f i :
  idx_by_sem (Semesters st) !! Semester f = Some i →
  ∃ dest merged,
    Semesters st !! i = Some dest ∧
    Semesters (merge_semesters st [f]) !! i = Some merged ∧
    existing_keys (Courses merged) =
      existing_keys (Courses dest) ∪ existing_keys (Courses f).
Proof.
  intros Hi.
  pose proof Hi as Hi'. apply idx_by_sem_Some in Hi' as [(dest & Hdest & _) _].
  exists dest, (merge_into dest f). split_and!; [done| |].
  - rewrite (merge_semesters_indexed _ _ _ _ Hi Hdest).
    apply list_lookup_insert_eq. by eapply lookup_lt_Some.
  - apply set_eq. intros k. rewrite elem_of_union.
    apply existing_keys_merge_into.
Qed.

End MergeMore.

Section NameFacts.

Variable lower : string → string.

Lemma scan_elements_Some (els : list (option string)) t :
  scan_elements lower els = Some t →
  name_acceptable lower t = true ∧ Some t ∈ els.
Proof.
  induction els as [|[t0|] els IH]; [done| |done].
  cbn [scan_elements]. destruct (name_acceptable lower t0) eqn:Hacc.
  - intros [= <-]. split; [done|left].
  - intros Hscan. destruct (IH Hscan) as [? ?]. split; [done|by right].
Qed.

Lemma extract_student_name_cases (answers : list (list (option string))) :
  extract_student_name lower answers = "Name Not Found" ∨
  (name_acceptable lower (extract_student_name lower answers) = true ∧
   ∃ els, els ∈ answers ∧ Some (extract_student_name lower answers) ∈ els).
Proof.
  induction answers as [|els answers IH]; [by left|].
  cbn [extract_student_name].
  destruct (scan_elements lower els) as [t|] eqn:Hscan.
  - right. apply scan_elements_Some in Hscan as [Hacc Hin].
    split; [done|]. exists els. split; [left|done].
  - destruct IH as [IH|(Hacc & els' & Hels' & Hin)]; [by left|right].
    split; [done|]. exists els'. split; [by right|done].
Qed.

Lemma extract_student_name_not_empty (answers : list (list (option string))) :
  extract_student_name lower answers ≠ "".
Proof.
  destruct (extract_student_name_cases answers) as [->|[Hacc _]]; [done|].
  unfold name_acceptable in Hacc. apply andb_prop in Hacc as [Hne _].
  intros Heq. by rewrite Heq in Hne.
Qed.

End NameFacts.

Section TrackMore.

Context {gpa : Type}.

Implicit Types (o : Outcome gpa) (os : list (Outcome gpa)) (r : Result gpa).
Implicit Types (st : StudentObj gpa) (m : gmap string (StudentObj gpa)).

(** *** The aggregate only grows *)

Lemma aggregate_extends_refl m : aggregate_extends m m.
Proof.
  intros usn st Hst. exists st. split; [done|]. apply semesters_extend_refl.
Qed.

Lemma aggregate_extends_trans m1 m2 m3 :
  aggregate_extends m1 m2 → aggregate_extends m2 m3 → aggregate_extends m1 m3.
Proof.
  intros H12 H23 usn st Hst.
  destruct (H12 usn st Hst) as (st2 & Hst2 & He2).
  destruct (H23 usn st2 Hst2) as (st3 & Hst3 & He3).
  exists st3. split; [done|]. by eapply semesters_extend_trans.
Qed.

Lemma ensure_and_merge_extends m usn name (cgpa : option gpa) frags :
  aggregate_extends m (ensure_and_merge m usn name cgpa frags).
Proof.
  intros k st Hst.
  destruct (decide (k = usn)) as [->|Hne].
  - destruct (ensure_and_merge_lookup m usn name cgpa frags)
      as (stu & Hstu & Hres).
    exists (merge_semesters stu frags). split; [done|].
    assert (Semesters stu = Semesters st) as <-.
    { rewrite (ensure_student_Semesters _ _ _ _ _ Hstu).
      unfold stored_semesters. by rewrite Hst. }
    apply merge_loop_extends.
  - exists st. rewrite ensure_and_merge_other by done. split; [done|].
    apply semesters_extend_refl.
Qed.

(** X8: whatever the outcomes, a track never drops a student, a semester or a
    course that the aggregate held when it started. *)
Theorem track_only_adds threshold year branch back os consec roll m :
  let after :=
    ls_map (track_loop threshold year branch back os consec roll m).1 in
  aggregate_extends m after ∧
  (∀ usn, is_Some (m !! usn) → is_Some (after !! usn)).
Proof.
  cbn zeta.
  assert (aggregate_extends m
            (ls_map (track_loop threshold year branch back os consec roll m).1))
    as Hext.
  { revert consec roll m. induction os as [|o os IH]; intros consec roll m.
    - apply aggregate_extends_refl.
    - destruct o as [|r].
      + rewrite track_loop_raised. cbn zeta. cbn [fst]. apply IH.
      + destruct (res_found r) eqn:Hfound.
        * rewrite track_loop_present by done. cbn zeta. cbn [fst].
          eapply aggregate_extends_trans; [apply ensure_and_merge_extends|].
          apply IH.
        * destruct (raises (back roll)) eqn:Hraise.
          { rewrite track_loop_absent_abort by done.
            apply aggregate_extends_refl. }
          destruct (decide (threshold ≤ S consec)).
          -- rewrite track_loop_absent_stop by done.
             apply aggregate_extends_refl.
          -- rewrite track_loop_absent_go by (done || lia). cbn zeta.
             cbn [fst]. apply IH. }
  split; [done|].
  intros usn [st Hst]. destruct (Hext usn st Hst) as (st' & Hst' & _).
  by exists st'.
Qed.

(** *** Where the records are filed *)

(** X9: a track files every record under its own identifier, and the only
    identifiers it adds are identifiers it processed. *)
Theorem track_files_by_identifier threshold year branch back os
    consec roll m :
  aggregate_keyed m →
  let run := track_loop threshold year branch back os consec roll m in
  aggregate_keyed (ls_map run.1) ∧
  (∀ usn, is_Some (ls_map run.1 !! usn) →
     is_Some (m !! usn) ∨ usn ∈ processed run.2).
Proof.
  cbn zeta. revert consec roll m.
  induction os as [|o os IH]; intros consec roll m Hkeyed.
  - split; [done|]. intros usn Husn. by left.
  - destruct o as [|r].
    + rewrite track_loop_raised. cbn zeta. cbn [fst snd].
      destruct (IH consec (S roll) m Hkeyed) as [Hk Hdom].
      split; [done|]. intros usn Husn.
      destruct (Hdom usn Husn) as [?|?]; [by left|right].
      rewrite processed_iteration. by right.
    + destruct (res_found r) eqn:Hfound.
      * rewrite track_loop_present by done. cbn zeta. cbn [fst snd].
        set (usn0 := usn_of year branch roll).
        pose proof (ensure_and_merge_keyed m usn0 (res_name r) (res_cgpa r)
                      (res_semesters r) Hkeyed) as Hk1.
        destruct (IH 0 (S roll) _ Hk1) as [Hk Hdom].
        split; [done|]. intros usn Husn.
        destruct (Hdom usn Husn) as [Hin|Hin].
        -- destruct (decide (usn = usn0)) as [->|Hne].
           ++ right. rewrite processed_process. left.
           ++ left. by rewrite ensure_and_merge_other in Hin.
        -- right. rewrite processed_process. by right.
      * destruct (raises (back roll)) eqn:Hraise.
        { rewrite track_loop_absent_abort by done. cbn [fst snd ls_map].
          split; [done|]. intros usn Husn. by left. }
        destruct (decide (threshold ≤ S consec)).
        -- rewrite track_loop_absent_stop by done. cbn [fst snd ls_map].
           split; [done|]. intros usn Husn. by left.
        -- rewrite track_loop_absent_go by (done || lia). cbn zeta.
           cbn [fst snd].
           destruct (IH (S consec) (S roll) m Hkeyed) as [Hk Hdom].
           split; [done|]. intros usn Husn.
           destruct (Hdom usn Husn) as [?|?]; [by left|right].
           rewrite processed_iteration. by right.
Qed.

(** *** Names *)

Lemma ensure_and_merge_named m usn n (cgpa : option gpa) frags :
  n ≠ "" →
  aggregate_named m →
  aggregate_named (ensure_and_merge m usn (Some n) cgpa frags).
Proof.
  intros Hn Hm.
  destruct (ensure_and_merge_lookup m usn (Some n) cgpa frags)
    as (stu & Hstu & Hres).
  intros k st Hk. destruct (decide (k = usn)) as [->|Hne].
  - rewrite Hres in Hk. injection Hk as <-.
    change (Name stu ≠ "").
    unfold ensure_student in Hstu. destruct (m !! usn) as [st0|] eqn:Hst0.
    + rewrite lookup_insert_eq in Hstu. injection Hstu as <-.
      pose proof (Hm _ _ Hst0) as Hname0. simpl in Hname0.
      destruct (negb (bool_decide (n = "")) && _), cgpa; done.
    + rewrite lookup_insert_eq in Hstu. by injection Hstu as <-.
  - rewrite ensure_and_merge_other in Hk by done. exact (Hm _ _ Hk).
Qed.

Lemma track_loop_named threshold year branch back os consec roll m :
  names_given os →
  aggregate_named m →
  aggregate_named
    (ls_map (track_loop threshold year branch back os consec roll m).1).
Proof.
  intros Hos. revert consec roll m.
  induction Hos as [|o os Ho Hos IH]; intros consec roll m Hm; [done|].
  destruct o as [|r].
  - rewrite track_loop_raised. cbn zeta. cbn [fst]. by apply IH.
  - destruct (res_found r) eqn:Hfound.
    + rewrite track_loop_present by done. cbn zeta. cbn [fst].
      destruct (Ho r eq_refl Hfound) as (n & -> & Hn).
      by apply IH, ensure_and_merge_named.
    + destruct (raises (back roll)) eqn:Hraise.
      { by rewrite track_loop_absent_abort. }
      destruct (decide (threshold ≤ S consec)).
      * by rewrite track_loop_absent_stop.
      * rewrite track_loop_absent_go by (done || lia). cbn zeta. cbn [fst].
        by apply IH.
Qed.

(** A found tuple carries the name the extractor read. *)
Lemma scrape_found_name (s : ScrapeScript gpa) r :
  (scrape_current_usn_view_structured s).1 = Returned r →
  res_found r = true →
  res_name r = Some (ss_name s).
Proof.
  destruct (ss_oops s) eqn:Hoops.
  { unfold scrape_current_usn_view_structured. rewrite Hoops.
    by intros [= <-]. }
  assert (∀ acc, (leave_with s acc).1 = Returned r →
                 res_name r = Some (ss_name s)) as Hleave.
  { intros acc. rewrite leave_with_unfold. cbn [fst].
    destruct (raises (ss_recover s)); [done|]. by intros [= <-]. }
  destruct (decide (ss_visits s = [])) as [Hnil|Hcons].
  - rewrite scrape_direct by done. destruct (ss_direct_present s).
    + intros Hres _. by eapply Hleave.
    + by intros [= <-].
  - rewrite scrape_cards by done. cbn zeta.
    destruct (cards_loop 0 (ss_visits s) [] None).1 as [acc|]; cbn [fst];
      [|done].
    intros Hres _. by eapply Hleave.
Qed.

Lemma retry_loop_found_name retries (s : SubmitScript gpa) usn attempts r :
  (retry_loop retries s usn attempts).1 = Returned r →
  res_found r = true →
  res_name r = Some (ss_name (sb_view s)).
Proof.
  induction attempts as [|a rest IH]; [by intros [= <-]|].
  rewrite retry_loop_cons. destruct (sb_wait s a).
  - by intros [= <-].
  - apply scrape_found_name.
  - apply scrape_found_name.
  - case_bool_decide; [done|].
    destruct (shows_result (sb_long_wait s)); [|by intros [= <-]].
    apply scrape_found_name.
Qed.

Lemma submit_with_found_name retries (s : SubmitScript gpa) usn r :
  (submit_with retries s usn).1 = Returned r →
  res_found r = true →
  res_name r = Some (ss_name (sb_view s)).
Proof.
  rewrite submit_with_unfold. cbn zeta.
  destruct (negb _); [done|]. destruct (negb _); [by intros [= <-]|].
  destruct (negb _); [done|]. apply retry_loop_found_name.
Qed.

(** X11: no record of the aggregate gets an empty name: with the names read by
    [extract_student_name], a track keeps that property whatever the driver
    answers. *)
Theorem stored_names_are_not_empty lower threshold year branch back
    (runs : list (SubmitScript gpa * string)) consec roll m :
  aggregate_named m →
  Forall (λ p, ∃ answers,
            ss_name (sb_view p.1) = extract_student_name lower answers) runs →
  let outcomes := (λ p, (submit_and_collect_usn p.1 p.2).1) <$> runs in
  aggregate_named
    (ls_map (track_loop threshold year branch back outcomes consec roll m).1).
Proof.
  intros Hm Hruns. cbn zeta. apply track_loop_named; [|done].
  apply Forall_fmap. eapply Forall_impl; [exact Hruns|].
  intros [s usn] [answers Hname] r Hr Hfound. cbn [fst snd] in *.
  exists (ss_name (sb_view s)). split.
  - exact (submit_with_found_name RETRY_ON_TIMEOUT s usn r Hr Hfound).
  - rewrite Hname. apply extract_student_name_not_empty.
Qed.

End TrackMore.

Section ExtractorMore.

Context {gpa : Type}.

Implicit Types (v : CardVisit gpa) (visits : list (CardVisit gpa)).
Implicit Types (sems : list (SemesterObj gpa)) (cgpa : option gpa).
Implicit Types (s : ScrapeScript gpa) (page : PageData gpa).

(** *** The table rows *)

Lemma add_row_parses courses (row : Row) :
  row_parses row → add_row courses row = courses ++ [course_of_row row].
Proof.
  intros (Hlen & Hc & Hn). unfold add_row. cbn zeta.
  rewrite (bool_decide_eq_true_2 _ Hlen).
  by rewrite (bool_decide_eq_false_2 _ Hc), (bool_decide_eq_false_2 _ Hn).
Qed.

(** X13: the course list of a table is made of its parsing rows, one course
    each, in the order of the rows; the other rows leave no trace. *)
Theorem courses_are_the_parsing_rows (rows : list Row) :
  extract_courses_from_visible_table rows =
  course_of_row <$> filter row_parses rows.
Proof.
  unfold extract_courses_from_visible_table.
  assert (∀ acc, foldl add_row acc rows =
                 acc ++ (course_of_row <$> filter row_parses rows)) as Hfold;
    [|apply Hfold].
  induction rows as [|row rows IH]; intros acc.
  - by rewrite app_nil_r.
  - simpl. rewrite IH, filter_cons. destruct (decide (row_parses row)).
    + by rewrite add_row_parses, fmap_cons, <- app_assoc by done.
    + by rewrite add_row_skips.
Qed.

(** *** The fragments *)






(** *** Where the extractor leaves the browser *)


End ExtractorMore.

Section HelperFacts.

(** *** [go_back_to_usn_entry_keep_session] *)

(** X18: the ways back are tried in a fixed order and the function stops at the
    first that works: it returns [False] only when the history was tried
    twice and timed out twice and the link and the reload failed; the
    reload is tried only after the history timed out twice and the link
    failed; an exception escapes only from a history step that fails with
    something else than a timeout. *)
Theorem go_back_falls_back_in_order (s : GoBackScript) :
  let run := go_back_to_usn_entry_keep_session s in
  (run.1 = Some false ↔
     gb_back s 0 = BackTimeout ∧ gb_back s 1 = BackTimeout ∧
     gb_link s = false ∧ gb_reload s = false) ∧
  (run.1 = None ↔
     gb_back s 0 = BackError ∨
     (gb_back s 0 = BackTimeout ∧ gb_back s 1 = BackError)) ∧
  (NavReload ∈ run.2 ↔
     gb_back s 0 = BackTimeout ∧ gb_back s 1 = BackTimeout ∧
     gb_link s = false) ∧
  (NavLink ∈ run.2 ↔
     gb_back s 0 = BackTimeout ∧ gb_back s 1 = BackTimeout) ∧
  (gb_back s 0 = BackOk → run = (Some true, [NavBack])) ∧
  length run.2 ≤ 4.
Proof.
  cbn zeta. unfold go_back_to_usn_entry_keep_session. cbn [seq back_loop].
  destruct (gb_back s 0) eqn:H0, (gb_back s 1) eqn:H1,
    (gb_link s) eqn:Hl, (gb_reload s) eqn:Hr;
    cbn; rewrite ?elem_of_cons, ?elem_of_nil;
    (split_and!; [| | | | |lia]; try done; split; intros;
     try done; try (destruct_and?; done); try (destruct_or?; destruct_and?; done);
     try (destruct_or?; done); auto 6).
Qed.

(** *** [click_go_button] *)

Lemma click_loop_none (s : ClickScript) (sels : list Selector) :
  Forall (λ sel, ck_selector s sel ≠ SelClicked) sels →
  click_loop s sels =
  (false, TryClick <$> filter (λ sel, ck_selector s sel = SelClickRaises) sels).
Proof.
  induction 1 as [|sel sels Hsel Hsels IH]; [done|].
  cbn [click_loop]. rewrite filter_cons.
  destruct (ck_selector s sel) eqn:E; [| |done].
  - rewrite IH. by case_decide.
  - rewrite IH. by case_decide.
Qed.

Lemma click_loop_first (s : ClickScript) (pre : list Selector) sel post :
  Forall (λ x, ck_selector s x ≠ SelClicked) pre →
  ck_selector s sel = SelClicked →
  click_loop s (pre ++ sel :: post) =
  (true,
   (TryClick <$> filter (λ x, ck_selector s x = SelClickRaises) pre)
     ++ [TryClick sel]).
Proof.
  intros Hpre Hsel. induction Hpre as [|x pre Hx Hpre IH].
  - cbn [app click_loop]. by rewrite Hsel.
  - rewrite <- app_comm_cons. cbn [click_loop]. rewrite filter_cons.
    destruct (ck_selector s x) eqn:E; [| |done].
    + rewrite IH. by case_decide.
    + rewrite IH. by case_decide.
Qed.

(** X19: the selectors are tried in the order of the list and the first
    element that takes the click ends the function with [True]; elements
    whose click raises are clicked on the way, selectors after the
    successful one are not touched and RETURN is not sent.  When no
    selector takes the click, RETURN is sent to the entry field if the
    field is found, and the result is [True] exactly when that did not
    raise; without the field nothing more is done. *)
Theorem click_go_button_stops_at_first_click (s : ClickScript) :
  (∀ pre sel post,
     selectors = pre ++ sel :: post →
     Forall (λ x, ck_selector s x ≠ SelClicked) pre →
     ck_selector s sel = SelClicked →
     click_go_button s =
     (true,
      (TryClick <$> filter (λ x, ck_selector s x = SelClickRaises) pre)
        ++ [TryClick sel])) ∧
  ((∀ sel, ck_selector s sel ≠ SelClicked) →
     click_go_button s =
     (bool_decide (ck_enter s = EnterSent),
      (TryClick <$> filter (λ x, ck_selector s x = SelClickRaises) selectors)
        ++ (if bool_decide (ck_enter s = EnterNoField) then []
            else [TryEnter]))).
Proof.
  split.
  - intros pre sel post Hsels Hpre Hsel. unfold click_go_button.
    rewrite Hsels, (click_loop_first s pre sel post Hpre Hsel). done.
  - intros Hnone. unfold click_go_button.
    rewrite click_loop_none.
    + cbn [fst snd]. destruct (ck_enter s); [|done..].
      by rewrite app_nil_r.
    + apply Forall_forall. intros sel _. apply Hnone.
Qed.

(** *** [wait_for_either] *)

(** X20: the first poll that shows anything decides, and within a poll the
    not-found text wins over cards, cards over a header or a table; the
    result is the timeout exactly when no poll showed anything.  *)
Theorem wait_for_either_first_poll_wins (polls : list Poll) :
  (wait_for_either polls = IndTimeout ↔
     Forall (λ p, poll_indicator p = None) polls) ∧
  (∀ pre p post ind,
     polls = pre ++ p :: post →
     Forall (λ q, poll_indicator q = None) pre →
     poll_indicator p = Some ind →
     wait_for_either polls = ind) ∧
  (∀ p, pl_oops p = true → poll_indicator p = Some IndOops) ∧
  (∀ p, poll_indicator p = Some IndCards →
        pl_oops p = false ∧ pl_cards p = true) ∧
  (∀ p, poll_indicator p = Some IndTable →
        pl_oops p = false ∧ pl_cards p = false).
Proof.
  assert (∀ p, poll_indicator p ≠ Some IndTimeout) as Hnever.
  { intros p. unfold poll_indicator.
    by destruct (pl_oops p), (pl_cards p), (pl_header p || pl_table p). }
  split_and!.
  - induction polls as [|p polls IH]; [by split|].
    cbn [wait_for_either]. destruct (poll_indicator p) as [ind|] eqn:Hp.
    + split.
      * intros ->. by destruct (Hnever p).
      * intros Hall. apply Forall_cons in Hall as [Hnone _]. congruence.
    + rewrite IH. split.
      * intros Hall. by apply Forall_cons.
      * intros Hall. by apply Forall_cons in Hall as [_ Hall].
  - intros pre p post ind -> Hpre Hp.
    induction Hpre as [|q pre Hq Hpre IH].
    + cbn [app wait_for_either]. by rewrite Hp.
    + rewrite <- app_comm_cons. cbn [wait_for_either]. by rewrite Hq.
  - intros p Hp. unfold poll_indicator. by rewrite Hp.
  - intros p. unfold poll_indicator.
    by destruct (pl_oops p), (pl_cards p), (pl_header p || pl_table p).
  - intros p. unfold poll_indicator.
    by destruct (pl_oops p), (pl_cards p), (pl_header p || pl_table p).
Qed.

(** *** [extract_student_name] *)

(** X21: the name is never empty: it is the placeholder, or a text that was
    read from the page, is not empty and is not one of the three reserved
    words in any casing; among the selectors the first one that has such a
    text decides. *)
Theorem extract_student_name_is_a_name lower
    (answers : list (list (option string))) :
  let name := extract_student_name lower answers in
  name ≠ "" ∧
  (name = "Name Not Found" ∨
   (negb (bool_decide (lower name ∈ ["semester"; "result"; "exam"])) = true ∧
    ∃ els, els ∈ answers ∧ Some name ∈ els)) ∧
  (∀ pre els post t,
     answers = pre ++ els :: post →
     Forall (λ e, scan_elements lower e = None) pre →
     scan_elements lower els = Some t →
     name = t).
Proof.
  cbn zeta.
  pose proof (extract_student_name_cases lower answers) as Hname.
  split_and!.
  - apply extract_student_name_not_empty.
  - destruct Hname as [?|[Hacc Hin]]; [by left|right]. split; [|done].
    unfold name_acceptable in Hacc. by apply andb_prop in Hacc as [_ ?].
  - clear Hname. intros pre els post t -> Hpre Hels.
    induction Hpre as [|e pre He Hpre IH].
    + cbn [app extract_student_name]. by rewrite Hels.
    + rewrite <- app_comm_cons. cbn [extract_student_name]. by rewrite He.
Qed.

(** *** [page_has_oops] *)

Lemma append_cons (c : Ascii.ascii) (a b : string) :
  String c a +:+ b = String c (a +:+ b).
Proof. reflexivity. Qed.

Lemma prefix_spec (a b : string) :
  String.prefix a b = true ↔ ∃ post, b = a +:+ post.
Proof.
  revert b. induction a as [|c a IH]; intros b.
  - split; [intros _; by exists b|by destruct b].
  - destruct b as [|d b]; simpl.
    + split; [done|]. by intros [post ?].
    + destruct (Ascii.ascii_dec c d) as [->|Hne].
      * rewrite IH. split; intros [post Hpost]; exists post.
        -- simpl. by rewrite Hpost.
        -- simpl in Hpost. by injection Hpost.
      * split; [done|]. intros [post Heq]. injection Heq as Heq _.
        by destruct Hne.
Qed.

Lemma contains_spec (needle hay : string) :
  contains needle hay = true ↔ ∃ pre post, hay = pre +:+ needle +:+ post.
Proof.
  induction hay as [|c hay IH]; cbn [contains].
  - rewrite orb_false_r, prefix_spec. split.
    + intros [post Hpost]. by exists "", post.
    + intros (pre & post & Heq). destruct pre as [|? ?]; [|done].
      by exists post.
  - rewrite orb_true_iff, prefix_spec, IH. split.
    + intros [[post Hpost]|(pre & post & Heq)].
      * by exists "", post.
      * exists (String c pre), post. simpl. by rewrite Heq.
    + intros (pre & post & Heq). destruct pre as [|d pre].
      * left. by exists post.
      * right. simpl in Heq. injection Heq as -> Heq. by exists pre, post.
Qed.

Lemma append_assoc (a b c : string) : (a +:+ b) +:+ c = a +:+ (b +:+ c).
Proof.
  induction a as [|x a IH]; [done|].
  rewrite !append_cons. by rewrite IH.
Qed.

Lemma contains_trans (a b c : string) :
  contains a b = true → contains b c = true → contains a c = true.
Proof.
  rewrite !contains_spec.
  intros (pre1 & post1 & ->) (pre2 & post2 & ->).
  exists (pre2 +:+ pre1), (post1 +:+ post2).
  by rewrite !append_assoc.
Qed.

(** X22: the first of the three texts is never needed: a page source is taken
    for the not-found page exactly when it holds "your usn could not be
    found" or "could not be found in our result database". *)
Theorem page_has_oops_two_texts (src : string) :
  page_has_oops src =
  contains "your usn could not be found" src ||
  contains "could not be found in our result database" src.
Proof.
  unfold page_has_oops.
  destruct (contains "oops!!! your usn could not be found" src) eqn:H1.
  - assert (contains "your usn could not be found" src = true) as ->; [|done].
    eapply contains_trans; [|exact H1]. by vm_compute.
  - cbn [orb]. apply orb_comm.
Qed.

End HelperFacts.

Section SubmitMore.

Context {gpa : Type}.

Implicit Types (s : SubmitScript gpa) (log : list Action).

(** *** What a submission does to the browser and to the operator *)

(** The retry loop over the attempts [a, a+1, ..., retries]. *)
Lemma retry_loop_bounds retries s usn n a :
  a + n = retries + 1 →
  count_refills (retry_loop retries s usn (seq a n)).2 ≤ n - 1 ∧
  count_resubmits (retry_loop retries s usn (seq a n)).2
    ≤ count_refills (retry_loop retries s usn (seq a n)).2 ∧
  count_inputs (retry_loop retries s usn (seq a n)).2 ≤ n ∧
  count_if is_submit (retry_loop retries s usn (seq a n)).2 = 0.
Proof.
  revert a. induction n as [|n IH]; intros a Hsum; [by split_and!|].
  unfold count_resubmits, count_refills, count_inputs in *.
  cbn [seq]. rewrite retry_loop_cons.
  destruct (sb_wait s a) eqn:Hwait.
  - cbn [snd]. rewrite !count_if_cons. cbn. split_and!; (lia || done).
  - cbn zeta. cbn [snd].
    rewrite !count_if_cons, !scrape_quiet by (by intros []). cbn.
    split_and!; (lia || done).
  - cbn zeta. cbn [snd].
    rewrite !count_if_cons, !scrape_quiet by (by intros []). cbn.
    split_and!; (lia || done).
  - case_bool_decide as Hlt.
    + destruct (IH (S a)) as (Hrf & Hre & Hi & Hsub); [lia|].
      cbn zeta. cbn [snd].
      destruct (resubmitted s a), (sb_retry_captcha s a); cbn [app];
        rewrite !count_if_cons; cbn; split_and!; lia.
    + destruct (shows_result (sb_long_wait s)).
      * cbn zeta. cbn [snd].
        rewrite !count_if_cons, !scrape_quiet by (by intros []). cbn.
        split_and!; (lia || done).
      * cbn [snd]. rewrite !count_if_cons. cbn. split_and!; (lia || done).
Qed.

(** X16: one call submits the identifier at most once, re-submits it at
    most [retries] times and asks the operator at most [retries + 3]
    times; when it submits nothing, it asks nothing and returns the
    not-found tuple, unless it raises.  No re-submission is made without a
    refill tried before it, and at most [retries] refills are tried. *)
Theorem submit_effects_are_bounded retries s usn :
  let run := submit_with retries s usn in
  count_if is_submit run.2 ≤ 1 ∧
  count_resubmits run.2 ≤ retries ∧
  count_inputs run.2 ≤ retries + 3 ∧
  (count_if is_submit run.2 = 0 →
     count_resubmits run.2 = 0 ∧ count_inputs run.2 = 0 ∧
     (run.1 = Raised ∨ run.1 = Returned not_found)) ∧
  count_resubmits run.2 ≤ count_refills run.2 ∧
  count_refills run.2 ≤ retries.
Proof.
  cbn zeta. rewrite submit_with_unfold. cbn zeta.
  destruct (retry_loop_bounds retries s usn (retries + 1) 0)
    as (Hrf & Hre & Hi & Hsub); [lia|].
  unfold count_resubmits, count_refills, count_inputs in *.
  assert (∀ f, (∀ a, is_view_action a = true → f a = false) →
               count_if f (ensure_on_usn_page s).2 = 0) as Hentry.
  { intros f Hf. by apply ensure_on_usn_page_quiet. }
  destruct (negb (ensure_on_usn_page s).1).
  { cbn [fst snd]. rewrite !Hentry by (by intros []).
    split_and!; (lia || auto). }
  destruct (negb (sb_field_found s)).
  { cbn [fst snd]. rewrite !Hentry by (by intros []).
    split_and!; (lia || auto). }
  destruct (negb (sb_fill_ok s)).
  { cbn [fst snd]. rewrite !Hentry by (by intros []).
    split_and!; (lia || auto). }
  cbn [fst snd]. rewrite !count_if_app, !Hentry by (by intros []).
  destruct (sb_click_ok s), (sb_captcha s); cbn [app];
    rewrite !count_if_cons, Hsub; cbn; split_and!; lia.
Qed.

(** *** The wait that is answered *)

Lemma retry_loop_first_answer retries s usn n a k :
  a ≤ k → k < a + n → k ≤ retries →
  (∀ j, a ≤ j < k → sb_wait s j = IndTimeout) →
  sb_wait s k ≠ IndTimeout →
  (retry_loop retries s usn (seq a n)).1 =
    (if shows_result (sb_wait s k)
     then (scrape_current_usn_view_structured (sb_view s)).1
     else Returned not_found) ∧
  count_refills (retry_loop retries s usn (seq a n)).2 = k - a ∧
  count_resubmits (retry_loop retries s usn (seq a n)).2
    = count_nat (resubmitted s) a (k - a) ∧
  count_escalations (retry_loop retries s usn (seq a n)).2 = 0.
Proof.
  revert a. induction n as [|n IH]; intros a Hak Hkn Hkr Hbefore Hk; [lia|].
  unfold count_resubmits, count_refills, count_escalations in *.
  cbn [seq]. rewrite retry_loop_cons.
  destruct (decide (a = k)) as [->|Hne].
  - rewrite Nat.sub_diag. destruct (sb_wait s k) eqn:Hwait; [| | |done].
    + done.
    + cbn zeta. cbn [fst snd shows_result].
      by rewrite !count_if_cons, !scrape_quiet by (by intros []).
    + cbn zeta. cbn [fst snd shows_result].
      by rewrite !count_if_cons, !scrape_quiet by (by intros []).
  - rewrite Hbefore by lia. rewrite bool_decide_eq_true_2 by lia.
    destruct (IH (S a)) as (Hres & Hrf & Hre & Hesc); [lia|lia|done| |done|].
    { intros j Hj. apply Hbefore. lia. }
    cbn zeta. cbn [fst snd]. split; [done|].
    replace (k - a) with (S (k - S a)) by lia. rewrite count_nat_S.
    destruct (resubmitted s a), (sb_retry_captcha s a); cbn [app];
      rewrite !count_if_cons, ?Hrf, ?Hre, ?Hesc; cbn; split_and!; lia.
Qed.

(** X17: when the first submit is made, the first wait of the retry loop
    that does not time out decides the call.  After [k] timeouts, with [k]
    at most [retries], a re-submission was tried exactly [k] times; those
    whose refill did not raise and whose click worked were made, the
    others are swallowed.  The retries were not
    reported as exhausted.  For the not-found page the result is the
    not-found tuple; for cards or a table it is what the extractor makes
    of the page, its tuple or the exception of a recovery call. *)
Theorem first_answer_ends_the_retries retries s usn k :
  (ensure_on_usn_page s).1 = true →
  sb_field_found s = true →
  sb_fill_ok s = true →
  k ≤ retries →
  (∀ j, j < k → sb_wait s j = IndTimeout) →
  sb_wait s k ≠ IndTimeout →
  let run := submit_with retries s usn in
  run.1 = (if shows_result (sb_wait s k)
           then (scrape_current_usn_view_structured (sb_view s)).1
           else Returned not_found) ∧
  count_refills run.2 = k ∧
  count_resubmits run.2 = count_nat (resubmitted s) 0 k ∧
  count_escalations run.2 = 0.
Proof.
  intros Hready Hfield Hfill Hk Hbefore Hans. cbn zeta.
  rewrite submit_with_unfold. cbn zeta. rewrite Hready, Hfield, Hfill.
  cbn [negb fst snd].
  destruct (retry_loop_first_answer retries s usn (retries + 1) 0 k)
    as (Hres & Hrf & Hre & Hesc); [lia|lia|done| |done|].
  { intros j Hj. apply Hbefore. lia. }
  rewrite Nat.sub_0_r in *.
  rewrite Hres. split; [done|].
  unfold count_resubmits, count_refills, count_escalations in *.
  rewrite !count_if_app, !ensure_on_usn_page_quiet by (by intros []).
  destruct (sb_click_ok s), (sb_captcha s); cbn [app];
    rewrite !count_if_cons, ?Hrf, ?Hre, ?Hesc; cbn; split_and!; lia.
Qed.

End SubmitMore.

Section IdentifierFacts.

Context {gpa : Type}.

Implicit Types (os : list (Outcome gpa)) (m : gmap string (StudentObj gpa)).

(** *** The roll number inside an identifier *)

Lemma digit_value_char (d : N) :
  (d < 10)%N → digit_value (pretty_N_char d) = d.
Proof.
  intros Hd.
  assert (d = 0 ∨ d = 1 ∨ d = 2 ∨ d = 3 ∨ d = 4 ∨
          d = 5 ∨ d = 6 ∨ d = 7 ∨ d = 8 ∨ d = 9)%N as Hcases by lia.
  destruct_or!; subst d; reflexivity.
Qed.

Lemma digits_value_go (x : N) (s : string) :
  digits_value 0 (pretty_N_go x s) = digits_value x s.
Proof.
  revert s. induction (N.lt_wf_0 x) as [x _ IH]; intros s.
  destruct (decide (x = 0)%N) as [->|Hpos].
  - by rewrite pretty_N_go_0.
  - rewrite pretty_N_go_step by lia.
    rewrite IH by (apply N.div_lt; lia).
    cbn [digits_value]. rewrite digit_value_char by (apply N.mod_lt; lia).
    f_equal. symmetry. apply N.div_mod. lia.
Qed.

Lemma digits_value_pretty (n : nat) :
  digits_value 0 (pretty n) = N.of_nat n.
Proof.
  unfold pretty, pretty_nat, pretty, pretty_N.
  destruct (decide (N.of_nat n = 0)%N) as [->|Hne]; [done|].
  by rewrite digits_value_go.
Qed.

Lemma digits_value_zeros (k : nat) (s : string) :
  digits_value 0 (zeros k +:+ s) = digits_value 0 s.
Proof. induction k as [|k IH]; [done|exact IH]. Qed.

Lemma length_append (a b : string) :
  String.length (a +:+ b) = String.length a + String.length b.
Proof.
  induction a as [|c a IH]; [done|].
  rewrite append_cons. cbn [String.length]. by rewrite IH.
Qed.

Lemma length_zeros (k : nat) : String.length (zeros k) = k.
Proof.
  induction k as [|k IH]; [done|].
  cbn [zeros]. rewrite length_append, IH. done.
Qed.

Lemma format_03d_value (roll : nat) :
  digits_value 0 (format_03d roll) = N.of_nat roll.
Proof.
  unfold format_03d. cbn zeta.
  by rewrite digits_value_zeros, digits_value_pretty.
Qed.

#[local] Instance format_03d_inj : Inj (=) (=) format_03d.
Proof.
  intros r1 r2 Heq. apply (f_equal (digits_value 0)) in Heq.
  rewrite !format_03d_value in Heq. lia.
Qed.

#[local] Instance usn_of_inj year branch : Inj (=) (=) (usn_of year branch).
Proof.
  intros r1 r2 Heq. unfold usn_of in Heq.
  do 3 apply String.app_inj in Heq. by apply format_03d_inj in Heq.
Qed.

(** X12: [f"{roll:03d}"] loses nothing: its digits read back give the roll
    number; it is as long as the decimal numeral of the roll number, and
    three characters long when the numeral is shorter; so the identifiers
    of one year and branch differ whenever the roll numbers do. *)
Theorem roll_number_reads_back year branch (roll : nat) :
  digits_value 0 (format_03d roll) = N.of_nat roll ∧
  String.length (format_03d roll) = 3 `max` String.length (pretty roll) ∧
  (∀ roll', usn_of year branch roll = usn_of year branch roll' →
            roll = roll').
Proof.
  split_and!.
  - apply format_03d_value.
  - unfold format_03d. cbn zeta. rewrite length_append, length_zeros. lia.
  - intros roll' Heq. by apply (inj (usn_of year branch)).
Qed.

(** *** The identifiers of a track *)

Lemma track_loop_processed threshold year branch back os consec roll m :
  ∃ k, k ≤ length os ∧
       processed (track_loop threshold year branch back os consec roll m).2 =
         usn_of year branch <$> seq roll k.
Proof.
  revert consec roll m. induction os as [|o os IH]; intros consec roll m.
  - by exists 0.
  - assert (processed
              (ActProcess (usn_of year branch roll) :: (recover (back roll)).2)
            = usn_of year branch <$> seq roll 1) as Hone.
    { rewrite processed_process. by rewrite processed_recover. }
    destruct o as [|r].
    + rewrite track_loop_raised. cbn zeta. cbn [snd].
      destruct (IH consec (S roll) m) as (k & Hk & Hp).
      exists (S k). split; [simpl; lia|].
      cbn [seq]. rewrite fmap_cons, <- Hp. apply processed_iteration.
    + destruct (res_found r) eqn:Hfound.
      * rewrite track_loop_present by done. cbn zeta. cbn [snd].
        destruct (IH 0 (S roll)
                    (ensure_and_merge m (usn_of year branch roll) (res_name r)
                       (res_cgpa r) (res_semesters r))) as (k & Hk & Hp).
        exists (S k). split; [simpl; lia|].
        cbn [seq]. rewrite fmap_cons, <- Hp. reflexivity.
      * destruct (raises (back roll)) eqn:Hraise.
        { rewrite track_loop_absent_abort by done.
          exists 1. split; [simpl; lia|done]. }
        destruct (decide (threshold ≤ S consec)).
        -- rewrite track_loop_absent_stop by done.
           exists 1. split; [simpl; lia|done].
        -- rewrite track_loop_absent_go by (done || lia). cbn zeta. cbn [snd].
           destruct (IH (S consec) (S roll) m) as (k & Hk & Hp).
           exists (S k). split; [simpl; lia|].
           cbn [seq]. rewrite fmap_cons, <- Hp. apply processed_iteration.
Qed.

(** X10: a track hands the identifiers of consecutive roll numbers to
    [submit_and_collect_usn], starting at its first roll number, one per
    outcome it consumes; so it never processes an identifier twice. *)
Theorem track_never_repeats_an_identifier threshold year branch back os
    consec roll m :
  let run := track_loop threshold year branch back os consec roll m in
  NoDup (processed run.2) ∧
  ∃ k, k ≤ length os ∧
       processed run.2 = usn_of year branch <$> seq roll k.
Proof.
  cbn zeta.
  destruct (track_loop_processed threshold year branch back os consec roll m)
    as (k & Hk & Hp).
  split; [|by exists k].
  rewrite Hp. apply (NoDup_fmap_2 _), NoDup_seq.
Qed.

End IdentifierFacts.

(** * The further properties on the sample data *)

Lemma merge_is_idempotent_on_distinct_new_numbers_witness :
  NoDup (Semester <$>
           new_to_record
             (stored_semesters (∅ : gmap string (StudentObj string)) ex_usn)
             [ex_sem3_algo; ex_sem4_os]) ∧
  ensure_and_merge
    (ensure_and_merge ∅ ex_usn (Some "A Student") None
                      [ex_sem3_algo; ex_sem4_os])
    ex_usn (Some "A Student") None [ex_sem3_algo; ex_sem4_os]
  = ensure_and_merge ∅ ex_usn (Some "A Student") None
                     [ex_sem3_algo; ex_sem4_os].
Proof.
  assert (NoDup (Semester <$>
                   new_to_record
                     (stored_semesters (∅ : gmap string (StudentObj string))
                                       ex_usn)
                     [ex_sem3_algo; ex_sem4_os])) as Hnew
    by (apply (bool_decide_unpack _); by vm_compute).
  split; [exact Hnew|].
  exact (merge_is_idempotent_on_distinct_new_numbers
           ∅ ex_usn (Some "A Student") None [ex_sem3_algo; ex_sem4_os] Hnew).
Defined.

Lemma merge_keeps_numbers_distinct_witness :
  NoDup (known_numbers (Semesters ex_student_sem3)) ∧
  NoDup (known_numbers
           (Semesters (merge_semesters ex_student_sem3
                                       [ex_sem3_os; ex_sem4_os]))).
Proof.
  assert (NoDup (known_numbers (Semesters ex_student_sem3))) as Hst
    by (apply (bool_decide_unpack _); by vm_compute).
  assert (NoDup (known_numbers
                   (filter (λ f, idx_by_sem (Semesters ex_student_sem3)
                                   !! Semester f = None)
                           [ex_sem3_os; ex_sem4_os]))) as Hnew
    by (apply (bool_decide_unpack _); by vm_compute).
  split; [exact Hst|].
  exact (merge_keeps_numbers_distinct ex_student_sem3
           [ex_sem3_os; ex_sem4_os] Hst Hnew).
Defined.

Lemma first_identifier_is_merged_twice_witness :
  (scrape_current_usn_view_structured ex_view).1 = Returned ex_result ∧
  res_found ex_result = true ∧
  (first_manual IndCards ex_view ex_back_ok ∅).1.1 = true ∧
  (first_manual IndCards ex_view ex_back_ok ∅).1.2 =
    ensure_and_merge ∅ first_usn (res_name ex_result) (res_cgpa ex_result)
                     (res_semesters ex_result) ∧
  (normal_track "21" "AD" (λ _, ex_back_ok) [Returned ex_result]
                (first_manual IndCards ex_view ex_back_ok ∅).1.2).1 =
    (track_loop MAX_CONSEC_OOPS "21" "AD" (λ _, ex_back_ok) [] 0
       (S ROLL_START)
       (ensure_and_merge (first_manual IndCards ex_view ex_back_ok ∅).1.2
          first_usn (res_name ex_result) (res_cgpa ex_result)
          (res_semesters ex_result))).1.
Proof.
  assert ((scrape_current_usn_view_structured ex_view).1 = Returned ex_result)
    as Hres by (by vm_compute).
  split_and!; [exact Hres|reflexivity|..];
    apply (first_identifier_is_merged_twice ex_view ex_back_ok
             (λ _, ex_back_ok) ex_result [] Hres eq_refl).
Defined.

Lemma first_merge_stores_fragments_witness :
  (∅ : gmap string (StudentObj string)) !! ex_usn = None ∧
  ensure_and_merge ∅ ex_usn (Some "A Student") None
                   [ex_sem3_algo; ex_sem3_os] !! ex_usn =
  Some (mkStudent ex_usn "A Student" None [ex_sem3_algo; ex_sem3_os]).
Proof.
  split; [reflexivity|].
  exact (first_merge_stores_fragments ∅ ex_usn (Some "A Student") None
           [ex_sem3_algo; ex_sem3_os] eq_refl).
Defined.

Lemma merged_triples_are_the_union_witness :
  idx_by_sem (Semesters ex_student_sem3) !! Semester ex_sem3_os = Some 0 ∧
  ∃ dest merged,
    Semesters ex_student_sem3 !! 0 = Some dest ∧
    Semesters (merge_semesters ex_student_sem3 [ex_sem3_os]) !! 0
      = Some merged ∧
    existing_keys (Courses merged) =
      existing_keys (Courses dest) ∪ existing_keys (Courses ex_sem3_os).
Proof.
  assert (idx_by_sem (Semesters ex_student_sem3) !! Semester ex_sem3_os
          = Some 0) as Hi by (by vm_compute).
  split; [exact Hi|].
  exact (merged_triples_are_the_union ex_student_sem3 ex_sem3_os 0 Hi).
Defined.

Lemma track_files_by_identifier_witness :
  aggregate_keyed (∅ : gmap string (StudentObj string)) ∧
  aggregate_keyed
    (ls_map (track_loop MAX_CONSEC_OOPS "21" "AD" (λ _, ex_back_ok)
                        ex_outcomes 0 ROLL_START ∅).1) ∧
  (∀ usn,
     is_Some (ls_map (track_loop MAX_CONSEC_OOPS "21" "AD" (λ _, ex_back_ok)
                                 ex_outcomes 0 ROLL_START ∅).1 !! usn) →
     is_Some ((∅ : gmap string (StudentObj string)) !! usn) ∨
     usn ∈ processed (track_loop MAX_CONSEC_OOPS "21" "AD" (λ _, ex_back_ok)
                                 ex_outcomes 0 ROLL_START ∅).2).
Proof.
  assert (aggregate_keyed (∅ : gmap string (StudentObj string))) as Hm
    by apply map_Forall_empty.
  split; [exact Hm|].
  exact (track_files_by_identifier MAX_CONSEC_OOPS "21" "AD" (λ _, ex_back_ok)
           ex_outcomes 0 ROLL_START ∅ Hm).
Defined.

Lemma stored_names_are_not_empty_witness :
  aggregate_named (∅ : gmap string (StudentObj string)) ∧
  Forall (λ p : SubmitScript string * string,
            ∃ answers,
              ss_name (sb_view p.1) = extract_student_name ex_lower answers)
         [(ex_script_found, "1MS21AD001")] ∧
  aggregate_named
    (ls_map (track_loop MAX_CONSEC_OOPS "21" "AD" (λ _, ex_back_ok)
               [(submit_and_collect_usn ex_script_found "1MS21AD001").1]
               0 ROLL_START ∅).1).
Proof.
  assert (aggregate_named (∅ : gmap string (StudentObj string))) as Hm
    by apply map_Forall_empty.
  assert (Forall (λ p : SubmitScript string * string,
                    ∃ answers,
                      ss_name (sb_view p.1)
                      = extract_student_name ex_lower answers)
                 [(ex_script_found, "1MS21AD001")]) as Hruns.
  { apply Forall_cons. split; [|apply Forall_nil_2].
    exists ex_headings. reflexivity. }
  split_and!; [exact Hm|exact Hruns|].
  exact (stored_names_are_not_empty ex_lower MAX_CONSEC_OOPS "21" "AD"
           (λ _, ex_back_ok)
           [(ex_script_found, "1MS21AD001")] 0 ROLL_START ∅ Hm Hruns).
Defined.

Lemma first_answer_ends_the_retries_witness :
  (ensure_on_usn_page ex_script_late).1 = true ∧
  sb_wait ex_script_late 0 = IndTimeout ∧
  sb_wait ex_script_late 1 = IndCards ∧
  (submit_and_collect_usn ex_script_late ex_usn).1 = Returned ex_result ∧
  count_refills (submit_and_collect_usn ex_script_late ex_usn).2 = 1 ∧
  count_resubmits (submit_and_collect_usn ex_script_late ex_usn).2 = 1 ∧
  count_escalations (submit_and_collect_usn ex_script_late ex_usn).2 = 0.
Proof.
  assert (1 ≤ RETRY_ON_TIMEOUT) as Hk by (unfold RETRY_ON_TIMEOUT; lia).
  assert (∀ j, j < 1 → sb_wait ex_script_late j = IndTimeout) as Hbefore.
  { intros j Hj. assert (j = 0) as -> by lia. reflexivity. }
  assert (sb_wait ex_script_late 1 ≠ IndTimeout) as Hans by discriminate.
  split_and!; [reflexivity|reflexivity|reflexivity|..];
    apply (first_answer_ends_the_retries RETRY_ON_TIMEOUT ex_script_late
             ex_usn 1 eq_refl eq_refl eq_refl Hk Hbefore Hans).
Defined.


Lemma click_go_button_stops_at_first_click_witness :
  click_go_button ex_click =
    (true, [TryClick SelButtonText; TryClick SelBtn7]) ∧
  click_go_button ex_click_nothing = (false, []).
Proof.
  assert (Forall (λ x, ck_selector ex_click x ≠ SelClicked)
                 [SelGoValue; SelSubmitType; SelButtonText]) as Hpre.
  { repeat (apply Forall_cons; split; [discriminate|]). apply Forall_nil_2. }
  assert (∀ sel, ck_selector ex_click_nothing sel ≠ SelClicked) as Hnone
    by discriminate.
  split.
  - exact (proj1 (click_go_button_stops_at_first_click ex_click)
             [SelGoValue; SelSubmitType; SelButtonText] SelBtn7 []
             eq_refl Hpre eq_refl).
  - exact (proj2 (click_go_button_stops_at_first_click ex_click_nothing)
             Hnone).
Defined.

Lemma wait_for_either_first_poll_wins_witness :
  wait_for_either ex_polls = IndOops.
Proof.
  assert (Forall (λ q, poll_indicator q = None)
                 [mkPoll false false false false]) as Hpre.
  { apply Forall_cons. split; [reflexivity|apply Forall_nil_2]. }
  exact (proj1 (proj2 (wait_for_either_first_poll_wins ex_polls))
           [mkPoll false false false false] (mkPoll true true false false) []
           IndOops eq_refl Hpre eq_refl).
Defined.

Lemma extract_student_name_is_a_name_witness :
  extract_student_name ex_lower ex_headings = "A Student".
Proof.
  assert (Forall (λ e, scan_elements ex_lower e = None) [[]]) as Hpre.
  { apply Forall_cons. split; [reflexivity|apply Forall_nil_2]. }
  exact (proj2 (proj2 (extract_student_name_is_a_name ex_lower ex_headings))
           [[]] [Some "Result"; Some "A Student"] [[Some "Exam"]] "A Student"
           eq_refl Hpre eq_refl).
Defined.
